(** * The buffered forwarding client (fluent/client/buffered_client.go)

    A shallow embedding of [BufferedClient]: the struct, its constructor
    and its methods, the [msgp.Writer] it buffers through, and the
    goroutines ([flushLoop], callers of [Sync] and [Stop]) as an
    interleaving transition system over one shared world.

    Conventions.
    - Go's [error] is [option error]; [None] is [nil].
    - A Go panic that nothing recovers ends the process: the world records
      it in [crashed] and takes no further step.
    - [chan struct{}] values are only ever closed, never sent on, so a
      channel is [Open] or [Closed].
    - A connection is a handle (an index) into the store [net]; the session
      and the writer may hold the same handle, and a writer keeps its handle
      after the session is gone. *)

From Stdlib Require Import ZArith List Bool Lia.
From Stdlib Require Import Init.Byte.
From stdpp Require Import base option list strings.

Local Open Scope Z_scope.

(** ** Errors and panics *)

Inductive error :=
| AlreadyConnected        (* errors.New("a session is already active") *)
| NoActiveSession         (* errors.New("no active session") *)
| HandshakeIncomplete     (* errors.New("session handshake not completed") *)
| EncodingFailure         (* returned by e.Chunk() or e.EncodeMsg(w) *)
| WriteFailure            (* the underlying connection refused a write *)
| DialFailure             (* ConnectionFactory.New() failed *)
| AcknowledgmentFailure.  (* checkAck: read failed or token mismatch *)

Definition error_text (e : error) : string :=
  match e with
  | AlreadyConnected => "a session is already active"
  | NoActiveSession => "no active session"
  | HandshakeIncomplete => "session handshake not completed"
  | EncodingFailure => "encoding failed"
  | WriteFailure => "write failed"
  | DialFailure => "dial failed"
  | AcknowledgmentFailure => "acknowledgment failed"
  end%string.

Inductive panic :=
| NilDereference            (* invalid memory address or nil pointer dereference *)
| CloseOfClosedChannel      (* close of closed channel *)
| UnlockOfUnlockedMutex     (* sync: unlock of unlocked mutex *)
| NonPositiveInterval.      (* non-positive interval for NewTicker *)

(** What a call gives back to its caller. *)
Inductive outcome :=
| Returns (err : option error)
| Panics (x : panic).

(** ** 64-bit counters *)

Definition wrap64 (z : Z) : Z := (z + 2^63) mod 2^64 - 2^63.
Definition add64 (a b : Z) : Z := wrap64 (a + b).

(** ** The transport *)

Inductive chan := Open | Closed.

(** Modelled from the spec: the raw transport of section 6.  A connection
    records whether it still accepts writes, the bytes the collector has
    received on it, and the acknowledgment tokens waiting to be read. *)
Record Conn := mkConn {
  up : bool;
  wire : list byte;
  acks : list string
}.

Definition len (p : list byte) : Z := Z.of_nat (length p).

(** net.Conn.Write on a connection that is up takes all of [p]; one that is
    down (closed, or broken before the call) refuses it and reports no byte
    written.  A write that breaks part-way, after some bytes went out, is
    not modelled. *)
Definition Conn_Write (c : Conn) (p : list byte) : Conn * Z * option error :=
  if up c
  then (mkConn true (wire c ++ p) (acks c), len p, None)
  else (c, 0, Some WriteFailure).

Definition Conn_Close (c : Conn) : Conn := mkConn false (wire c) (acks c).

(** ** The buffered writer adapter *)

(** Modelled from the spec: the Buffered Writer Adapter of section 4.1, the
    [msgp.Writer] of the tinylib/msgp library.  [w] is the handle of the
    wrapped connection, [cap] is [len(mw.buf)] and [buf] is
    [mw.buf[:mw.wloc]]: "bytes handed to write are either held in the buffer
    or already transmitted". *)
Record Writer := mkWriter {
  w : nat;
  cap : Z;
  buf : list byte
}.

Definition minWriterSize : Z := 18.

(** [msgp.NewWriterSize]: a buffer of [sz] bytes, and never fewer than
    [minWriterSize]. *)
Definition NewWriterSize (conn : nat) (sz : Z) : Writer :=
  mkWriter conn (if sz <? minWriterSize then minWriterSize else sz) [].

Definition avail (mw : Writer) : Z := cap mw - len (buf mw).

(** Write [p] on the connection behind handle [h]. *)
Definition net_Write (net : list Conn) (h : nat) (p : list byte)
  : list Conn * Z * option error :=
  match net !! h with
  | Some c =>
      let '(c', n, err) := Conn_Write c p in (<[h := c']> net, n, err)
  | None => (net, 0, Some WriteFailure)
  end.

(** Modelled from the spec: [flush], which "forces any buffered-but-unsent
    bytes to the connection" and is a no-op without I/O on an empty buffer.
    On a failed write the bytes the connection did not take stay buffered. *)
Definition Writer_flush (mw : Writer) (net : list Conn)
  : Writer * list Conn * option error :=
  match buf mw with
  | [] => (mw, net, None)
  | _ =>
      let '(net', n, err) := net_Write net (w mw) (buf mw) in
      match err with
      | Some e =>
          (if 0 <? n
           then mkWriter (w mw) (cap mw) (drop (Z.to_nat n) (buf mw))
           else mw, net', Some e)
      | None => (mkWriter (w mw) (cap mw) [], net', None)
      end
  end.

Definition Writer_Flush := Writer_flush.

(** Modelled from the spec: [write], which "appends bytes to the internal
    buffer, transparently flushing ... as capacity is reached": when [p]
    does not fit in the free space the buffer is flushed first, and a [p]
    larger than the whole buffer goes to the connection directly. *)
Definition Writer_Write (mw : Writer) (p : list byte) (net : list Conn)
  : Writer * list Conn * (Z * option error) :=
  let l := len p in
  if avail mw <? l then
    let '(mw1, net1, err) := Writer_flush mw net in
    match err with
    | Some e => (mw1, net1, (0, Some e))
    | None =>
        if cap mw1 <? l then
          let '(net2, n, err2) := net_Write net1 (w mw1) p in
          (mw1, net2, (n, err2))
        else (mkWriter (w mw1) (cap mw1) (buf mw1 ++ p), net1, (l, None))
    end
  else (mkWriter (w mw) (cap mw) (buf mw ++ p), net, (l, None)).

(** ** The base client *)

(** Modelled from the spec: the connection factory of the base client
    (section 6: "supplies the raw transport (default: TCP to a fixed local
    address)"). *)
Record ConnFactory := mkConnFactory {
  Network : string;
  Address : string
}.

(** Modelled from the spec: the authentication info of the configuration
    surface (section 6). *)
Record AuthInfoType := mkAuthInfo {
  SharedKey : option (list byte);
  Username : string;
  Password : string
}.

(** Modelled from the spec: the base client's session, "a boolean
    transport-phase-complete flag and an underlying connection handle". *)
Record Session := mkSession {
  Connection : nat;
  TransportPhase : bool
}.

(** Modelled from the spec: the fields of the base [Client] that the
    constructor fills in, and its [session].  [sessionLock] and [ackLock]
    are taken and released inside one call of [Connect], [Disconnect],
    [Send] or [SendRaw]; those calls are single steps here, so the two
    locks are free between steps and carry no state. *)
Record Client := mkClient {
  ConnectionFactory : ConnFactory;
  AuthInfo : AuthInfoType;
  RequireAck : bool;
  Timeout : Z;
  session : option Session
}.

Module Opts.
(** Modelled from the spec: the options of the base client (section 6,
    configuration surface). *)
Record ConnectionOptions := mkConnectionOptions {
  Factory : option ConnFactory;
  RequireAck : bool;
  ConnectionTimeout : Z;
  AuthInfo : AuthInfoType
}.

Record BufferedClientConnectionOptions := mkOptions {
  Base : ConnectionOptions;
  BufferSize : Z;
  FlushInterval : Z
}.
End Opts.

(** ** The buffered client *)

Definition Second : Z := 1000000000.
Definition defaultBufferSize : Z := 1024 * 1024.
Definition defaultFlushInterval : Z := 30 * Second.

(** [time.Ticker]: [armed] until [Stop]; [C] is the one-slot channel on
    which the runtime leaves a tick.  [Stop] does not drain [C]. *)
Record Ticker := mkTicker {
  armed : bool;
  C : bool
}.

Definition NewTicker (d : Z) : option Ticker :=
  if d <=? 0 then None else Some (mkTicker true false).

Definition Ticker_Stop (t : Ticker) : Ticker := mkTicker false (C t).

(** [mutex] holds the goroutine that locked it, [None] when it is free. *)
Record BufferedClient := mkBufferedClient {
  base : Client;
  bufferSize : Z;
  flushInterval : Z;
  writer : option Writer;
  ticker : Ticker;
  mutex : option nat;
  stop : chan;
  done : chan
}.

Inductive constructed :=
| Built (b : BufferedClient)
| BuildPanics (x : panic).

Section Construction.
(** Declared with the base client; its value plays no part below. *)
Variable DefaultConnectionTimeout : Z.

(** The goroutine started by the constructor only reads the counters every
    ten seconds and prints them; it changes nothing and is left out. *)
Definition NewBufferedClient (opts : Opts.BufferedClientConnectionOptions)
  : constructed :=
  let factory :=
    match Opts.Factory (Opts.Base opts) with
    | Some f => f
    | None => mkConnFactory "tcp" "localhost:24224"
    end in
  let ConnectionTimeout :=
    if Opts.ConnectionTimeout (Opts.Base opts) =? 0
    then DefaultConnectionTimeout
    else Opts.ConnectionTimeout (Opts.Base opts) in
  let BufferSize :=
    if Opts.BufferSize opts =? 0 then defaultBufferSize
    else Opts.BufferSize opts in
  let FlushInterval :=
    if Opts.FlushInterval opts =? 0 then defaultFlushInterval
    else Opts.FlushInterval opts in
  match NewTicker FlushInterval with
  | None => BuildPanics NonPositiveInterval
  | Some tk =>
      Built (mkBufferedClient
               (mkClient factory (Opts.AuthInfo (Opts.Base opts))
                  (Opts.RequireAck (Opts.Base opts)) ConnectionTimeout None)
               BufferSize FlushInterval None tk None Open Open)
  end.
End Construction.

(** ** Goroutines *)

Inductive sync_pc :=
| SyncLock                      (* bc.mutex.Lock() *)
| SyncFlush                     (* bc.writer.Flush() *)
| SyncUnlock (r : option error). (* deferred bc.mutex.Unlock(), then return r *)

Inductive loop_pc :=
| LoopSelect                    (* select { case <-bc.ticker.C: ... case <-bc.stop: ... } *)
| LoopSync (p : sync_pc)        (* _ = bc.Sync() *)
| LoopCloseDone.                (* return; deferred close(bc.done) *)

Inductive stop_pc :=
| StopLock                      (* bc.mutex.Lock() *)
| StopTicker                    (* bc.ticker.Stop() *)
| StopCloseStop                 (* close(bc.stop) *)
| StopWaitDone                  (* <-bc.done *)
| StopUnlock.                   (* deferred bc.mutex.Unlock() *)

Inductive thread :=
| InFlushLoop (p : loop_pc)
| FlushLoopExited
| InSync (p : sync_pc)
| SyncReturned (r : option error)
| InStop (p : stop_pc)
| StopReturned.

(** ** The world *)

(** Modelled from the spec: the Metrics Accumulator of section 3, the
    package-level [int64] counters "bytes written, cumulative write latency,
    write count", updated with [atomic.AddInt64]. *)
Record Metrics := mkMetrics {
  totalBytesWritten : Z;
  totalWriteTimeNs : Z;
  totalWriteTimeMs : Z;
  writeCount : Z
}.

Record World := mkWorld {
  bc : BufferedClient;
  net : list Conn;
  stats : Metrics;
  threads : list thread;
  crashed : option panic
}.

Definition set_bc (f : BufferedClient -> BufferedClient) (s : World) : World :=
  mkWorld (f (bc s)) (net s) (stats s) (threads s) (crashed s).
Definition set_net (n : list Conn) (s : World) : World :=
  mkWorld (bc s) n (stats s) (threads s) (crashed s).
Definition set_stats (m : Metrics) (s : World) : World :=
  mkWorld (bc s) (net s) m (threads s) (crashed s).
Definition set_threads (ts : list thread) (s : World) : World :=
  mkWorld (bc s) (net s) (stats s) ts (crashed s).
Definition crash (x : panic) (s : World) : World :=
  mkWorld (bc s) (net s) (stats s) (threads s) (Some x).

Definition with_base (c : Client) (b : BufferedClient) : BufferedClient :=
  mkBufferedClient c (bufferSize b) (flushInterval b) (writer b) (ticker b)
    (mutex b) (stop b) (done b).
Definition with_writer (mw : option Writer) (b : BufferedClient) : BufferedClient :=
  mkBufferedClient (base b) (bufferSize b) (flushInterval b) mw (ticker b)
    (mutex b) (stop b) (done b).
Definition with_ticker (t : Ticker) (b : BufferedClient) : BufferedClient :=
  mkBufferedClient (base b) (bufferSize b) (flushInterval b) (writer b) t
    (mutex b) (stop b) (done b).
Definition with_mutex (m : option nat) (b : BufferedClient) : BufferedClient :=
  mkBufferedClient (base b) (bufferSize b) (flushInterval b) (writer b)
    (ticker b) m (stop b) (done b).
Definition with_stop (c : chan) (b : BufferedClient) : BufferedClient :=
  mkBufferedClient (base b) (bufferSize b) (flushInterval b) (writer b)
    (ticker b) (mutex b) c (done b).
Definition with_done (c : chan) (b : BufferedClient) : BufferedClient :=
  mkBufferedClient (base b) (bufferSize b) (flushInterval b) (writer b)
    (ticker b) (mutex b) (stop b) c.
Definition with_session (o : option Session) (c : Client) : Client :=
  mkClient (ConnectionFactory c) (AuthInfo c) (RequireAck c) (Timeout c) o.

(** The world right after [NewBufferedClient]: no connection, zeroed
    counters, no goroutine of the client yet. *)
Definition boot (dct : Z) (opts : Opts.BufferedClientConnectionOptions)
  : option World :=
  match NewBufferedClient dct opts with
  | Built b => Some (mkWorld b [] (mkMetrics 0 0 0 0) [] None)
  | BuildPanics _ => None
  end.

(** ** Methods that run as one step *)

(** [Connect], [Disconnect], [Reconnect], [Send] and [SendRaw] are given as
    the effect of one whole call with nothing else running in between.
    [Send] and [SendRaw] take no [bc.mutex], and [SendRaw] tests
    [bc.session] before it takes the session lock: a call that overlaps a
    flush, a [Disconnect] or another send can do more than these functions
    show.  The transition system below has each of these calls as a single
    step and does not contain such overlaps; what is proved of every
    reachable world below concerns the mutex, the two channels, the ticker,
    the goroutines of [Sync], [Stop] and [flushLoop], and whether
    [bc.writer] is nil, none of which a send touches. *)

(** What [ConnectionFactory.New()] and the base client make of a dial: it
    fails, or it yields a session whose transport phase is complete or not. *)
Inductive dial :=
| DialFails
| DialOk (transport_phase : bool).

(** Modelled from the spec: the base client's [connect] (section 6),
    "connection establishment" that leaves a [session] with its connection
    handle.  The new connection is a fresh handle in the store. *)
Definition Client_connect (d : dial) (s : World) : World * option error :=
  match d with
  | DialFails => (s, Some DialFailure)
  | DialOk tp =>
      let h := length (net s) in
      (set_net (net s ++ [mkConn true [] []])
         (set_bc (fun b => with_base
                    (with_session (Some (mkSession h tp)) (base b)) b) s),
       None)
  end.

(** Modelled from the spec: the base client's [disconnect], which closes
    the connection of the session, if any, and ends the session. *)
Definition Client_disconnect (s : World) : World * option error :=
  let s1 :=
    match session (base (bc s)) with
    | Some ses =>
        match net s !! Connection ses with
        | Some c => set_net (<[Connection ses := Conn_Close c]> (net s)) s
        | None => s
        end
    | None => s
    end in
  (set_bc (fun b => with_base (with_session None (base b)) b) s1, None).

(** Modelled from the spec: the base client's acknowledgment check, "a
    blocking read-and-match of the acknowledgment response correlated to
    that token"; a missing or a mismatched token is an
    [AcknowledgmentFailure]. *)
Definition Client_checkAck (chunk : string) (s : World) : World * option error :=
  match session (base (bc s)) with
  | None => (s, Some AcknowledgmentFailure)
  | Some ses =>
      match net s !! Connection ses with
      | Some (mkConn u wr (tok :: rest)) =>
          (set_net (<[Connection ses := mkConn u wr rest]> (net s)) s,
           if String.eqb tok chunk then None else Some AcknowledgmentFailure)
      | _ => (s, Some AcknowledgmentFailure)
      end
  end.

(** go bc.flushLoop() *)
Definition go (th : thread) (s : World) : World :=
  set_threads (threads s ++ [th]) s.

Definition connect (d : dial) (s : World) : World * option error :=
  let '(s1, err) := Client_connect d s in
  match err with
  | Some e => (s1, Some e)
  | None =>
      match session (base (bc s1)) with
      | None => (crash NilDereference s1, None)
      | Some ses =>
          let s2 :=
            set_bc (fun b => with_writer
                       (Some (NewWriterSize (Connection ses) (bufferSize b))) b)
              s1 in
          (go (InFlushLoop LoopSelect) s2, None)
      end
  end.

Definition Connect (d : dial) (s : World) : World * option error :=
  match session (base (bc s)) with
  | Some _ => (s, Some AlreadyConnected)
  | None => connect d s
  end.

Definition disconnect (s : World) : World * option error :=
  Client_disconnect s.

(** Modelled from the spec: the base client's [Disconnect], its
    [disconnect] under the session lock. *)
Definition Client_Disconnect (s : World) : World * option error :=
  Client_disconnect s.

(** Modelled from the spec: the base client's [Reconnect], its own
    [disconnect] and [connect] under the session lock; it "does not by
    itself flush or stop the scheduler", and it makes no new writer and
    starts no flush loop. *)
Definition Client_Reconnect (d : dial) (s : World) : World * option error :=
  let '(s1, _) := Client_disconnect s in Client_connect d s1.

Definition Disconnect (s : World) : World * option error :=
  Client_Disconnect s.

Definition Reconnect (d : dial) (s : World) : World * option error :=
  Client_Reconnect d s.

(** Modelled from the spec: the encoder abstraction of section 6,
    [protocol.ChunkEncoder]: "any record type must support rendering itself
    to a byte sequence and, when acknowledgment is required, producing a
    correlation token before encoding".  [Chunk()] gives the token;
    [EncodeMsg(w)] hands [Pieces] to the writer one by one and then reports
    [EncodeErr]. *)
Record ChunkEncoder := mkEncoder {
  Chunk : string * option error;
  Pieces : list (list byte);
  EncodeErr : option error
}.

Fixpoint write_all (ps : list (list byte)) (mw : Writer) (nt : list Conn)
  : Writer * list Conn * option error :=
  match ps with
  | [] => (mw, nt, None)
  | p :: ps' =>
      let '(mw', nt', (_, err)) := Writer_Write mw p nt in
      match err with
      | Some e => (mw', nt', Some e)
      | None => write_all ps' mw' nt'
      end
  end.

Definition EncodeMsg (e : ChunkEncoder) (mw : Writer) (nt : list Conn)
  : Writer * list Conn * option error :=
  let '(mw', nt', err) := write_all (Pieces e) mw nt in
  (mw', nt', match err with Some x => Some x | None => EncodeErr e end).

Definition record_write (n durationNs : Z) (m : Metrics) : Metrics :=
  let durationMs := Z.quot durationNs 1000000 in
  mkMetrics (add64 (totalBytesWritten m) (wrap64 n))
            (add64 (totalWriteTimeNs m) durationNs)
            (add64 (totalWriteTimeMs m) durationMs)
            (add64 (writeCount m) 1).

(** [durationNs] is [time.Since(startTime).Nanoseconds()], which the clock
    decides. *)
Definition SendRaw (m : list byte) (durationNs : Z) (s : World)
  : World * outcome :=
  match session (base (bc s)) with
  | None => (s, Returns (Some NoActiveSession))
  | Some ses =>
      if negb (TransportPhase ses)
      then (s, Returns (Some HandshakeIncomplete))
      else
        match writer (bc s) with
        | None => (s, Panics NilDereference)
        | Some mw =>
            let '(mw', nt', (n, err)) := Writer_Write mw m (net s) in
            let s1 := set_net nt' (set_bc (with_writer (Some mw')) s) in
            (set_stats (record_write n durationNs (stats s1)) s1, Returns err)
        end
  end.

Definition Send (e : ChunkEncoder) (s : World) : World * outcome :=
  match session (base (bc s)) with
  | None => (s, Returns (Some NoActiveSession))
  | Some ses =>
      if negb (TransportPhase ses)
      then (s, Returns (Some HandshakeIncomplete))
      else
        let '(chunk, err) :=
          if RequireAck (base (bc s)) then Chunk e else (""%string, None) in
        match err with
        | Some x => (s, Returns (Some x))
        | None =>
            match writer (bc s) with
            | None => (s, Panics NilDereference)
            | Some mw =>
                let '(mw', nt', err1) := EncodeMsg e mw (net s) in
                let s1 := set_net nt' (set_bc (with_writer (Some mw')) s) in
                match err1 with
                | Some x => (s1, Returns (Some x))
                | None =>
                    if RequireAck (base (bc s))
                    then let '(s2, r) := Client_checkAck chunk s1 in
                         (s2, Returns r)
                    else (s1, Returns None)
                end
            end
        end
  end.

(** ** Methods that run instruction by instruction *)

(** Where an instruction leaves its goroutine. *)
Inductive next (P R : Type) :=
| Goto (p : P)
| Return (r : R)
| Crash (x : panic).
Arguments Goto {P R} p.
Arguments Return {P R} r.
Arguments Crash {P R} x.

(** [None] everywhere below: the goroutine is blocked and cannot move. *)

Definition mutex_Lock (t : nat) (s : World) : option World :=
  match mutex (bc s) with
  | None => Some (set_bc (with_mutex (Some t)) s)
  | Some _ => None
  end.

Definition mutex_Unlock (s : World) : option World :=
  match mutex (bc s) with
  | Some _ => Some (set_bc (with_mutex None) s)
  | None => None
  end.

Definition Sync_step (t : nat) (p : sync_pc) (s : World)
  : option (World * next sync_pc (option error)) :=
  match p with
  | SyncLock =>
      s' ← mutex_Lock t s; Some (s', Goto SyncFlush)
  | SyncFlush =>
      match writer (bc s) with
      | None => Some (s, Crash NilDereference)
      | Some mw =>
          let '(mw', nt', err) := Writer_Flush mw (net s) in
          Some (set_net nt' (set_bc (with_writer (Some mw')) s),
                Goto (SyncUnlock err))
      end
  | SyncUnlock r =>
      match mutex_Unlock s with
      | Some s' => Some (s', Return r)
      | None => Some (s, Crash UnlockOfUnlockedMutex)
      end
  end.

(** The two ready cases of the select in [flushLoop]. *)
Inductive select_case := CaseTick | CaseStop.

Definition flushLoop_select (c : select_case) (s : World)
  : option (World * next loop_pc unit) :=
  match c with
  | CaseTick =>
      if C (ticker (bc s))
      then Some (set_bc (fun b => with_ticker (mkTicker (armed (ticker b)) false) b) s,
                 Goto (LoopSync SyncLock))
      else None
  | CaseStop =>
      match stop (bc s) with
      | Closed => Some (s, Goto LoopCloseDone)
      | Open => None
      end
  end.

Definition flushLoop_step (t : nat) (p : loop_pc) (s : World)
  : option (World * next loop_pc unit) :=
  match p with
  | LoopSelect => None
  | LoopSync q =>
      r ← Sync_step t q s;
      match r with
      | (s', Goto q') => Some (s', Goto (LoopSync q'))
      | (s', Return _) => Some (s', Goto LoopSelect)
      | (s', Crash x) => Some (s', Crash x)
      end
  | LoopCloseDone =>
      match done (bc s) with
      | Open => Some (set_bc (with_done Closed) s, Return ())
      | Closed => Some (s, Crash CloseOfClosedChannel)
      end
  end.

Definition Stop_step (t : nat) (p : stop_pc) (s : World)
  : option (World * next stop_pc unit) :=
  match p with
  | StopLock =>
      s' ← mutex_Lock t s; Some (s', Goto StopTicker)
  | StopTicker =>
      Some (set_bc (fun b => with_ticker (Ticker_Stop (ticker b)) b) s,
            Goto StopCloseStop)
  | StopCloseStop =>
      match stop (bc s) with
      | Open => Some (set_bc (with_stop Closed) s, Goto StopWaitDone)
      | Closed => Some (s, Crash CloseOfClosedChannel)
      end
  | StopWaitDone =>
      match done (bc s) with
      | Closed => Some (s, Goto StopUnlock)
      | Open => None
      end
  | StopUnlock =>
      match mutex_Unlock s with
      | Some s' => Some (s', Return ())
      | None => Some (s, Crash UnlockOfUnlockedMutex)
      end
  end.

(** ** The transition system *)

Inductive label :=
| Tick                                   (* the runtime leaves a tick on ticker.C *)
| NetDown (h : nat)                      (* connection h breaks *)
| NetAck (h : nat) (tok : string)        (* the collector acknowledges on h *)
| CallConnect (d : dial)
| CallDisconnect
| CallReconnect (d : dial)
| CallSendRaw (m : list byte) (durationNs : Z)
| CallSend (e : ChunkEncoder)
| GoSync                                 (* a goroutine enters bc.Sync() *)
| GoStop                                 (* a goroutine enters bc.Stop() *)
| Select (t : nat) (c : select_case)     (* flush loop t takes a ready case *)
| Run (t : nat).                         (* goroutine t runs its next instruction *)

Definition settle {P R} (t : nat) (inj : P -> thread) (ret : R -> thread)
  (r : World * next P R) : World :=
  match r with
  | (s', Goto p) => set_threads (<[t := inj p]> (threads s')) s'
  | (s', Return v) => set_threads (<[t := ret v]> (threads s')) s'
  | (s', Crash x) => crash x s'
  end.

Definition finish (r : World * outcome) : World :=
  match r with
  | (s', Returns _) => s'
  | (s', Panics x) => crash x s'
  end.

Definition step (l : label) (s : World) : option World :=
  match crashed s with
  | Some _ => None
  | None =>
      match l with
      | Tick =>
          if armed (ticker (bc s))
          then Some (set_bc (fun b => with_ticker (mkTicker true true) b) s)
          else None
      | NetDown h =>
          c ← net s !! h; Some (set_net (<[h := Conn_Close c]> (net s)) s)
      | NetAck h tok =>
          c ← net s !! h;
          Some (set_net (<[h := mkConn (up c) (wire c) (acks c ++ [tok])]> (net s)) s)
      | CallConnect d => Some (fst (Connect d s))
      | CallDisconnect => Some (fst (Disconnect s))
      | CallReconnect d => Some (fst (Reconnect d s))
      | CallSendRaw m dur => Some (finish (SendRaw m dur s))
      | CallSend e => Some (finish (Send e s))
      | GoSync => Some (go (InSync SyncLock) s)
      | GoStop => Some (go (InStop StopLock) s)
      | Select t c =>
          match threads s !! t with
          | Some (InFlushLoop LoopSelect) =>
              settle t InFlushLoop (fun _ => FlushLoopExited) <$> flushLoop_select c s
          | _ => None
          end
      | Run t =>
          match threads s !! t with
          | Some (InFlushLoop p) =>
              settle t InFlushLoop (fun _ => FlushLoopExited) <$> flushLoop_step t p s
          | Some (InSync p) =>
              settle t InSync SyncReturned <$> Sync_step t p s
          | Some (InStop p) =>
              settle t InStop (fun _ => StopReturned) <$> Stop_step t p s
          | _ => None
          end
      end
  end.

Fixpoint exec (tr : list label) (s : World) : option World :=
  match tr with
  | [] => Some s
  | l :: tr' => s' ← step l s; exec tr' s'
  end.

Inductive reachable : World -> Prop :=
| reach_boot dct opts s : boot dct opts = Some s -> reachable s
| reach_step s l s' : reachable s -> step l s = Some s' -> reachable s'.

(** [bc.Sync()] and [bc.Stop()] run by goroutine [t] with nothing in
    between: the instructions above in program order.  [None]: the call
    blocks. *)
Fixpoint Sync_from (fuel : nat) (t : nat) (p : sync_pc) (s : World)
  : option (World * outcome) :=
  match fuel with
  | O => None
  | S fuel' =>
      r ← Sync_step t p s;
      match r with
      | (s', Goto p') => Sync_from fuel' t p' s'
      | (s', Return e) => Some (s', Returns e)
      | (s', Crash x) => Some (crash x s', Panics x)
      end
  end.

Definition Sync (t : nat) (s : World) : option (World * outcome) :=
  Sync_from 3 t SyncLock s.

Fixpoint Stop_from (fuel : nat) (t : nat) (p : stop_pc) (s : World)
  : option (World * outcome) :=
  match fuel with
  | O => None
  | S fuel' =>
      r ← Stop_step t p s;
      match r with
      | (s', Goto p') => Stop_from fuel' t p' s'
      | (s', Return _) => Some (s', Returns None)
      | (s', Crash x) => Some (crash x s', Panics x)
      end
  end.

Definition Stop (t : nat) (s : World) : option (World * outcome) :=
  Stop_from 5 t StopLock s.

(** ** The scheduling view of a world

    What the stop handshake and the mutex depend on: who holds the mutex,
    the two channels, whether the ticker is armed, and where each goroutine
    stands.  Buffers, connections and counters are left out. *)

Record view := mkView {
  v_mutex : option nat;
  v_stop : chan;
  v_done : chan;
  v_armed : bool;
  v_threads : list thread
}.

Definition view_of (s : World) : view :=
  mkView (mutex (bc s)) (stop (bc s)) (done (bc s)) (armed (ticker (bc s)))
         (threads s).

(** A goroutine is created at the first instruction of its function. *)
Inductive entry : thread -> Prop :=
| entry_loop : entry (InFlushLoop LoopSelect)
| entry_sync : entry (InSync SyncLock)
| entry_stop : entry (InStop StopLock).

(** The instruction that takes goroutine [t] from one place to the next, with
    what it needs of the mutex, channels and ticker and what it leaves. *)
Inductive move (t : nat) : thread -> thread -> view -> view -> Prop :=
| mv_sync_lock ts st dn ar :
    move t (InSync SyncLock) (InSync SyncFlush)
      (mkView None st dn ar ts) (mkView (Some t) st dn ar ts)
| mv_loop_lock ts st dn ar :
    move t (InFlushLoop (LoopSync SyncLock)) (InFlushLoop (LoopSync SyncFlush))
      (mkView None st dn ar ts) (mkView (Some t) st dn ar ts)
| mv_stop_lock ts st dn ar :
    move t (InStop StopLock) (InStop StopTicker)
      (mkView None st dn ar ts) (mkView (Some t) st dn ar ts)
| mv_sync_flush v r :
    move t (InSync SyncFlush) (InSync (SyncUnlock r)) v v
| mv_loop_flush v r :
    move t (InFlushLoop (LoopSync SyncFlush))
      (InFlushLoop (LoopSync (SyncUnlock r))) v v
| mv_sync_unlock ts h st dn ar r :
    move t (InSync (SyncUnlock r)) (SyncReturned r)
      (mkView (Some h) st dn ar ts) (mkView None st dn ar ts)
| mv_loop_unlock ts h st dn ar r :
    move t (InFlushLoop (LoopSync (SyncUnlock r))) (InFlushLoop LoopSelect)
      (mkView (Some h) st dn ar ts) (mkView None st dn ar ts)
| mv_stop_unlock ts h st dn ar :
    move t (InStop StopUnlock) StopReturned
      (mkView (Some h) st dn ar ts) (mkView None st dn ar ts)
| mv_case_tick v :
    move t (InFlushLoop LoopSelect) (InFlushLoop (LoopSync SyncLock)) v v
| mv_case_stop ts m dn ar :
    move t (InFlushLoop LoopSelect) (InFlushLoop LoopCloseDone)
      (mkView m Closed dn ar ts) (mkView m Closed dn ar ts)
| mv_close_done ts m st ar :
    move t (InFlushLoop LoopCloseDone) FlushLoopExited
      (mkView m st Open ar ts) (mkView m st Closed ar ts)
| mv_ticker_stop ts m st dn ar :
    move t (InStop StopTicker) (InStop StopCloseStop)
      (mkView m st dn ar ts) (mkView m st dn false ts)
| mv_close_stop ts m dn ar :
    move t (InStop StopCloseStop) (InStop StopWaitDone)
      (mkView m Open dn ar ts) (mkView m Closed dn ar ts)
| mv_wait_done ts m st ar :
    move t (InStop StopWaitDone) (InStop StopUnlock)
      (mkView m st Closed ar ts) (mkView m st Closed ar ts).

Definition v_set_threads (ts : list thread) (v : view) : view :=
  mkView (v_mutex v) (v_stop v) (v_done v) (v_armed v) ts.

Inductive vstep : view -> view -> Prop :=
| vs_stay v : vstep v v
| vs_spawn v th :
    entry th -> vstep v (v_set_threads (v_threads v ++ [th]) v)
| vs_move v v' t th th' :
    v_threads v !! t = Some th ->
    move t th th' v v' ->
    vstep v (v_set_threads (<[t := th']> (v_threads v')) v').

(** ** Invariants of the protocol, as definitions *)

(** The goroutine is between a [Lock] and its [Unlock] of [bc.mutex]. *)
Definition holds (th : thread) : bool :=
  match th with
  | InSync SyncFlush | InSync (SyncUnlock _) => true
  | InFlushLoop (LoopSync SyncFlush) | InFlushLoop (LoopSync (SyncUnlock _)) => true
  | InStop StopTicker | InStop StopCloseStop | InStop StopWaitDone
  | InStop StopUnlock => true
  | _ => false
  end.

(** The goroutine has seen [bc.stop] closed, or closed it itself. *)
Definition after_signal (th : thread) : bool :=
  match th with
  | InStop StopWaitDone | InStop StopUnlock | StopReturned => true
  | InFlushLoop LoopCloseDone | FlushLoopExited => true
  | _ => false
  end.

(** The goroutine has received from [bc.done]. *)
Definition after_wait (th : thread) : bool :=
  match th with
  | InStop StopUnlock | StopReturned => true
  | _ => false
  end.

Definition is_loop (th : thread) : bool :=
  match th with
  | InFlushLoop _ | FlushLoopExited => true
  | _ => false
  end.

(** How many times [go bc.flushLoop()] has run. *)
Definition loops_started (s : World) : nat :=
  length (filter (fun th => is_loop th = true) (threads s)).

Record inv (v : view) : Prop := mkInv {
  inv_owner : forall t th,
    v_threads v !! t = Some th -> holds th = true -> v_mutex v = Some t;
  inv_held : forall t,
    v_mutex v = Some t ->
    exists th, v_threads v !! t = Some th /\ holds th = true;
  inv_signal : forall t th,
    v_threads v !! t = Some th -> after_signal th = true -> v_stop v = Closed;
  inv_disarm : forall t,
    v_threads v !! t = Some (InStop StopCloseStop) -> v_armed v = false;
  inv_armed : v_stop v = Closed -> v_armed v = false;
  inv_wait : forall t th,
    v_threads v !! t = Some th -> after_wait th = true -> v_done v = Closed;
  inv_exit : v_done v = Closed -> exists t, v_threads v !! t = Some FlushLoopExited
}.

(** A call of [Stop] has returned. *)
Definition stop_returned (s : World) : Prop :=
  exists t, threads s !! t = Some StopReturned.

(** Label [l] makes a flush loop run [bc.writer.Flush()] in world [s]. *)
Definition loop_flush (l : label) (s : World) : Prop :=
  exists t, l = Run t /\ threads s !! t = Some (InFlushLoop (LoopSync SyncFlush)).

(** No goroutine of the client can move. *)
Definition stuck (s : World) : Prop :=
  forall t, step (Run t) s = None /\ forall c, step (Select t c) s = None.

(** The bytes received so far on connection [h]. *)
Definition received (h : nat) (s : World) : list byte :=
  match net s !! h with
  | Some c => wire c
  | None => []
  end.

(** The bytes still held by the writer. *)
Definition buffered (s : World) : list byte :=
  match writer (bc s) with
  | Some mw => buf mw
  | None => []
  end.

(** ** Scenarios *)

Definition plain_options : Opts.BufferedClientConnectionOptions :=
  Opts.mkOptions (Opts.mkConnectionOptions None false 0 (mkAuthInfo None "" "")) 0 0.

Definition ack_options : Opts.BufferedClientConnectionOptions :=
  Opts.mkOptions (Opts.mkConnectionOptions None true 0 (mkAuthInfo None "" "")) 0 0.

(** The world that trace [tr] leaves, from a client built with [opts]. *)
Definition scenario (opts : Opts.BufferedClientConnectionOptions)
  (tr : list label) : option World :=
  s ← boot (60 * Second) opts; exec tr s.

Definition of_scenario (o : option World) : World :=
  match o with
  | Some s => s
  | None => mkWorld
              (mkBufferedClient
                 (mkClient (mkConnFactory "" "") (mkAuthInfo None "" "") false 0 None)
                 0 0 None (mkTicker false false) None Open Open)
              [] (mkMetrics 0 0 0 0) [] (Some NilDereference)
  end.

(** Freshly constructed, never connected. *)
Definition fresh_world : World := of_scenario (scenario plain_options []).

(** Connect; a tick arrives and the flush loop (goroutine 0) takes it;
    [Stop] (goroutine 1) then locks, disarms, closes [stop] and waits. *)
Definition stop_during_tick : list label :=
  [CallConnect (DialOk true); Tick; Select 0%nat CaseTick;
   GoStop; Run 1%nat; Run 1%nat; Run 1%nat].

(** Connect, then a clean [Stop]: the loop (0) sees [stop], closes [done];
    [Stop] (1) returns. *)
Definition clean_stop : list label :=
  [CallConnect (DialOk true);
   GoStop; Run 1%nat; Run 1%nat; Run 1%nat;
   Select 0%nat CaseStop; Run 0%nat;
   Run 1%nat; Run 1%nat].

(** Connect, Disconnect, Connect: two flush loops (0 and 1).  Two bytes are
    buffered, loop 0 takes a tick, [Stop] (2) runs and returns once loop 1
    has closed [done]; loop 0 then gets the mutex. *)
Definition stop_with_two_loops : list label :=
  [CallConnect (DialOk true); CallDisconnect; CallConnect (DialOk true);
   CallSendRaw [x01; x02] 5;
   Tick; Select 0%nat CaseTick;
   GoStop; Run 2%nat; Run 2%nat; Run 2%nat;
   Select 1%nat CaseStop; Run 1%nat;
   Run 2%nat; Run 2%nat;
   Run 0%nat].

(** Connected, two bytes buffered, then the connection breaks and a tick
    arrives. *)
Definition broken_link : list label :=
  [CallConnect (DialOk true); CallSendRaw [x01; x02] 5; NetDown 0%nat; Tick].

(** Connected with require-ack set; the collector has an acknowledgment
    with token "c0" on the way. *)
Definition awaiting_ack : list label :=
  [CallConnect (DialOk true); NetAck 0%nat "c0"].

(** A record of three bytes with correlation token "c1". *)
Definition small_record : ChunkEncoder :=
  mkEncoder ("c1"%string, None) [[x93; x01; x02]] None.

(** ** Delivery *)

(** The writer wraps connection [h], and [h] still accepts writes. *)
Definition linked (h : nat) (s : World) : Prop :=
  (exists mw, writer (bc s) = Some mw /\ w mw = h)
  /\ exists c, net s !! h = Some c /\ up c = true.

(** The session exists and its handshake is complete: [Send] and [SendRaw]
    get past their two checks. *)
Definition accepting (s : World) : Prop :=
  exists ses, session (base (bc s)) = Some ses /\ TransportPhase ses = true.

(** [SendRaw] of each message in turn, each with its measured duration. *)
Fixpoint SendRaw_all (ms : list (list byte * Z)) (s : World) : World :=
  match ms with
  | [] => s
  | (m, dur) :: ms' => SendRaw_all ms' (fst (SendRaw m dur s))
  end.

(** Connected, nothing sent yet. *)
Definition connected_world : World :=
  of_scenario (scenario plain_options [CallConnect (DialOk true)]).

(** Connected, with the two bytes 1, 2 sitting in the buffer. *)
Definition buffering_world : World :=
  of_scenario (scenario plain_options
                 [CallConnect (DialOk true); CallSendRaw [x01; x02] 5]).

(** Connected, with a [Stop] called before any tick: it has locked,
    disarmed the ticker and closed [stop], and waits. *)
Definition early_stop : list label :=
  [GoStop; Run 0%nat; Run 0%nat; Run 0%nat].

(** Lookups in a goroutine pool after updates and a spawn. *)
Ltac pool :=
  simpl;
  repeat first
    [ rewrite list_lookup_insert_eq
        by (rewrite ?length_insert, ?length_app; simpl; lia)
    | rewrite list_lookup_insert_ne by lia
    | rewrite list_lookup_middle by reflexivity
    | rewrite lookup_app_l by lia ];
  try reflexivity; try assumption.

(** Connected, two bytes buffered, then disconnected. *)
Definition disconnected_world : World :=
  of_scenario (scenario plain_options
                 [CallConnect (DialOk true); CallSendRaw [x01; x02] 5;
                  CallDisconnect]).

(** The values of a Go [int64]. *)
Definition int64 (z : Z) : Prop := - 2 ^ 63 <= z < 2 ^ 63.

(** A client with the smallest buffer the writer allows, 18 bytes. *)
Definition tiny_options : Opts.BufferedClientConnectionOptions :=
  Opts.mkOptions (Opts.mkConnectionOptions None false 0 (mkAuthInfo None "" "")) 18 0.

(** ** Proof steps used more than once *)

(** The step succeeded and left the world on the right-hand side. *)
Ltac landed :=
  let H := fresh "H" in
  intro H; apply (inj Some) in H; rewrite <- H; clear H.

(** Split a lookup in an updated pool: the updated slot or another one. *)
Ltac at_index Hl :=
  apply list_lookup_insert_Some in Hl;
  destruct Hl as [(? & ? & _) | (? & Hl)]; simplify_eq.

(** * Properties *)

(** ** The writer keeps its contract *)

Lemma Writer_Flush_empty mw nt :
  buf mw = [] -> Writer_Flush mw nt = (mw, nt, None).
Proof. intros E. unfold Writer_Flush, Writer_flush. rewrite E. reflexivity. Qed.

Lemma Writer_Write_fits mw p nt :
  len p <= avail mw ->
  Writer_Write mw p nt = (mkWriter (w mw) (cap mw) (buf mw ++ p), nt, (len p, None)).
Proof.
  intros H. unfold Writer_Write.
  destruct (Z.ltb_spec (avail mw) (len p)); [lia | reflexivity].
Qed.

(** ** Construction *)

(** C9: construction applies the defaults: a [BufferSize] of 0 becomes
    1 MiB (1048576 bytes), a [FlushInterval] of 0 becomes 30 seconds
    (30000000000 ns), and any other supplied value is stored unchanged.
    The constructor builds a client unless the interval is negative, where
    [time.NewTicker] panics. *)
Theorem NewBufferedClient_defaults :
  forall (dct : Z) (opts : Opts.BufferedClientConnectionOptions),
    match NewBufferedClient dct opts with
    | Built b =>
        bufferSize b =
          (if Opts.BufferSize opts =? 0 then 1048576 else Opts.BufferSize opts)
        /\ flushInterval b =
          (if Opts.FlushInterval opts =? 0 then 30000000000
           else Opts.FlushInterval opts)
    | BuildPanics x => x = NonPositiveInterval /\ Opts.FlushInterval opts < 0
    end.
Proof.
  intros dct opts. unfold NewBufferedClient, NewTicker.
  destruct (Z.eqb_spec (Opts.FlushInterval opts) 0) as [E | E].
  - simpl. split; reflexivity.
  - destruct (Z.leb_spec (Opts.FlushInterval opts) 0); simpl.
    + split; [reflexivity | lia].
    + split; reflexivity.
Qed.

(** ** Precondition checks *)

(** C4: with no session, [Send] and [SendRaw] return the "no active
    session" error; with a session, [Connect] returns the "a session is
    already active" error; the world is the same after the call. *)
Theorem inactive_Send_and_active_Connect_fail :
  forall (s : World) (e : ChunkEncoder) (m : list byte) (dur : Z) (d : dial),
    match session (base (bc s)) with
    | None =>
        Send e s = (s, Returns (Some NoActiveSession))
        /\ SendRaw m dur s = (s, Returns (Some NoActiveSession))
        /\ error_text NoActiveSession = "no active session"%string
    | Some _ =>
        Connect d s = (s, Some AlreadyConnected)
        /\ error_text AlreadyConnected = "a session is already active"%string
    end.
Proof.
  intros s e m dur d. unfold Send, SendRaw, Connect.
  destruct (session (base (bc s))); repeat split; reflexivity.
Qed.

(** C5 (the code departs from it): on a client that was never connected
    [bc.writer] is nil and [Sync] panics on the nil dereference instead of
    returning an error; after Connect and Disconnect the writer is still
    there and [Sync] on its empty buffer returns nil, not an error. *)
Theorem Sync_without_connection :
  writer (bc fresh_world) = None
  /\ session (base (bc fresh_world)) = None
  /\ (exists s', Sync 0%nat fresh_world = Some (s', Panics NilDereference))
  /\ (let s := of_scenario
                 (scenario plain_options [CallConnect (DialOk true); CallDisconnect]) in
      session (base (bc s)) = None
      /\ exists s', Sync 1%nat s = Some (s', Returns None)).
Proof.
  repeat split; try reflexivity; eexists; reflexivity.
Qed.

(** ** Sending *)

(** C2 (the code departs from it): with require-ack set, [Send] encodes the
    record into the writer and goes straight to the acknowledgment check;
    nothing flushes.  A three-byte record with token "c1" on a connection
    where the acknowledgment read yields "c0": the check fails, the
    connection has received nothing and the three bytes are still in the
    buffer. *)
Theorem Send_requireAck_does_not_flush :
  let s := of_scenario (scenario ack_options awaiting_ack) in
  let s' := fst (Send small_record s) in
  scenario ack_options awaiting_ack = Some s
  /\ RequireAck (base (bc s)) = true
  /\ snd (Send small_record s) = Returns (Some AcknowledgmentFailure)
  /\ received 0%nat s' = []
  /\ buffered s' = [x93; x01; x02].
Proof.
  cbv zeta. repeat apply conj; vm_compute; reflexivity.
Qed.

(** C7, as stated, fails: a [SendRaw] on a client with no session returns
    at the first check and leaves every counter as it was. *)
Lemma SendRaw_rejected_records_nothing :
  let r := SendRaw [x01] 1000000 fresh_world in
  snd r = Returns (Some NoActiveSession)
  /\ stats (fst r) = stats fresh_world
  /\ writeCount (stats (fst r)) <> add64 (writeCount (stats fresh_world)) 1.
Proof.
  repeat split; try reflexivity. vm_compute. discriminate.
Qed.

(** C7, amended: a [SendRaw] that passes the session and handshake checks
    and finds a writer ([bc.writer] not nil, as after any successful
    Connect) records bytes written, latency (ns and ms) and the write count
    exactly once, with the [n] and the error of the buffered write, whether
    that write succeeded or failed; a call stopped by either check returns
    its error and records nothing. *)
Theorem SendRaw_records_once_past_the_checks :
  forall (s : World) (m : list byte) (dur : Z),
    (session (base (bc s)) = None ->
       SendRaw m dur s = (s, Returns (Some NoActiveSession)))
    /\ (forall ses,
          session (base (bc s)) = Some ses -> TransportPhase ses = false ->
          SendRaw m dur s = (s, Returns (Some HandshakeIncomplete)))
    /\ (forall ses mw,
          session (base (bc s)) = Some ses -> TransportPhase ses = true ->
          writer (bc s) = Some mw ->
          let '(_, _, (n, err)) := Writer_Write mw m (net s) in
          let s' := fst (SendRaw m dur s) in
          snd (SendRaw m dur s) = Returns err
          /\ totalBytesWritten (stats s') =
               add64 (totalBytesWritten (stats s)) (wrap64 n)
          /\ totalWriteTimeNs (stats s') =
               add64 (totalWriteTimeNs (stats s)) dur
          /\ totalWriteTimeMs (stats s') =
               add64 (totalWriteTimeMs (stats s)) (Z.quot dur 1000000)
          /\ writeCount (stats s') = add64 (writeCount (stats s)) 1).
Proof.
  intros s m dur. unfold SendRaw. split; [|split].
  - intros ->. reflexivity.
  - intros ses -> ->. reflexivity.
  - intros ses mw -> -> ->. simpl.
    destruct (Writer_Write mw m (net s)) as [[mw' nt'] [n err]].
    simpl. repeat split; reflexivity.
Qed.

(** The theorem applies: on a never-connected client the call is stopped
    and the world is unchanged; on a connected client with one write already
    counted, a second write is counted once, with its one byte. *)
Lemma SendRaw_records_once_witness :
  SendRaw [x03] 7 fresh_world = (fresh_world, Returns (Some NoActiveSession))
  /\ writeCount (stats buffering_world) = 1
  /\ writeCount (stats (fst (SendRaw [x03] 7 buffering_world))) = 2
  /\ totalBytesWritten (stats (fst (SendRaw [x03] 7 buffering_world))) = 3.
Proof.
  destruct (SendRaw_records_once_past_the_checks fresh_world [x03] 7)
    as (Hno & _ & _).
  destruct (SendRaw_records_once_past_the_checks buffering_world [x03] 7)
    as (_ & _ & Hyes).
  specialize (Hyes (mkSession 0 true) (mkWriter 0 1048576 [x01; x02])).
  split; [apply Hno; vm_compute; reflexivity|].
  split; [vm_compute; reflexivity|].
  assert (session (base (bc buffering_world)) = Some (mkSession 0 true)) as H1
    by (vm_compute; reflexivity).
  assert (writer (bc buffering_world) = Some (mkWriter 0 1048576 [x01; x02])) as H2
    by (vm_compute; reflexivity).
  specialize (Hyes H1 eq_refl H2).
  destruct (Writer_Write (mkWriter 0 1048576 [x01; x02]) [x03] (net buffering_world))
    as [[mw' nt'] [n err]] eqn:E.
  destruct Hyes as (_ & Hb & _ & _ & Hc).
  assert (n = 1) as -> by (vm_compute in E; congruence).
  split; [rewrite Hc | rewrite Hb]; vm_compute; reflexivity.
Defined.

(** A session without a writer exists: [Reconnect] on a client that was
    never connected makes one, and [SendRaw] then passes both checks and
    panics on the nil writer before any counter moves. *)
Lemma SendRaw_on_nil_writer_panics :
  let s := of_scenario (scenario plain_options [CallReconnect (DialOk true)]) in
  scenario plain_options [CallReconnect (DialOk true)] = Some s
  /\ writer (bc s) = None
  /\ SendRaw [x01] 7 s = (s, Panics NilDereference).
Proof.
  cbv zeta. repeat apply conj; vm_compute; reflexivity.
Qed.

(** ** Every step is a move of the scheduling view *)

Lemma view_Client_disconnect s : view_of (fst (Client_disconnect s)) = view_of s.
Proof.
  unfold Client_disconnect.
  destruct (session (base (bc s))) as [ses|]; [|reflexivity].
  destruct (net s !! Connection ses); reflexivity.
Qed.

Lemma view_Client_connect d s : view_of (fst (Client_connect d s)) = view_of s.
Proof. destruct d; reflexivity. Qed.

Lemma view_Reconnect d s : view_of (fst (Reconnect d s)) = view_of s.
Proof.
  unfold Reconnect, Client_Reconnect.
  pose proof (view_Client_disconnect s) as H.
  destruct (Client_disconnect s) as [s1 e]. simpl in H.
  rewrite view_Client_connect. exact H.
Qed.

Lemma view_Client_checkAck chunk s :
  view_of (fst (Client_checkAck chunk s)) = view_of s.
Proof.
  unfold Client_checkAck.
  destruct (session (base (bc s))) as [ses|]; [|reflexivity].
  destruct (net s !! Connection ses) as [[u wr [|tok rest]]|]; reflexivity.
Qed.

Lemma view_SendRaw m dur s : view_of (finish (SendRaw m dur s)) = view_of s.
Proof.
  unfold SendRaw.
  destruct (session (base (bc s))) as [ses|]; [|reflexivity].
  destruct (TransportPhase ses); [|reflexivity]. simpl.
  destruct (writer (bc s)) as [mw|]; [|reflexivity].
  destruct (Writer_Write mw m (net s)) as [[mw' nt'] [n err]]. reflexivity.
Qed.

Lemma view_Send e s : view_of (finish (Send e s)) = view_of s.
Proof.
  unfold Send.
  destruct (session (base (bc s))) as [ses|]; [|reflexivity].
  destruct (TransportPhase ses); [|reflexivity]. simpl.
  destruct (if RequireAck (base (bc s)) then Chunk e else (""%string, None))
    as [chunk [x|]]; [reflexivity|].
  destruct (writer (bc s)) as [mw|]; [|reflexivity].
  destruct (EncodeMsg e mw (net s)) as [[mw' nt'] [x|]]; [reflexivity|].
  destruct (RequireAck (base (bc s))); [|reflexivity].
  match goal with
  | |- context [Client_checkAck ?c ?s1] =>
      pose proof (view_Client_checkAck c s1) as H;
      destruct (Client_checkAck c s1) as [s2 r]
  end.
  exact H.
Qed.

Lemma view_Connect d s :
  view_of (fst (Connect d s)) = view_of s
  \/ view_of (fst (Connect d s)) =
       v_set_threads (v_threads (view_of s) ++ [InFlushLoop LoopSelect]) (view_of s).
Proof.
  unfold Connect, connect.
  destruct (session (base (bc s))); [left; reflexivity|].
  destruct d as [|tp]; [left; reflexivity|].
  right. reflexivity.
Qed.

Lemma settle_crash {P R} t (inj : P -> thread) (ret : R -> thread) s x :
  view_of (settle t inj ret (s, Crash x)) = view_of s.
Proof. reflexivity. Qed.

Lemma step_view l s s' : step l s = Some s' -> vstep (view_of s) (view_of s').
Proof.
  unfold step. destruct (crashed s); [discriminate|].
  destruct l as [ |h|h tok|d| |d|m dur|e| | |t c|t].
  - destruct (armed (ticker (bc s))) eqn:E; [|discriminate].
    landed. unfold view_of; simpl. rewrite <- E. apply vs_stay.
  - destruct (net s !! h); simpl; [|discriminate]. landed. apply vs_stay.
  - destruct (net s !! h); simpl; [|discriminate]. landed. apply vs_stay.
  - landed. destruct (view_Connect d s) as [-> | ->].
    + apply vs_stay.
    + apply vs_spawn. constructor.
  - landed. unfold Disconnect, Client_Disconnect. rewrite view_Client_disconnect.
    apply vs_stay.
  - landed. rewrite view_Reconnect. apply vs_stay.
  - landed. rewrite view_SendRaw. apply vs_stay.
  - landed. rewrite view_Send. apply vs_stay.
  - landed. apply (vs_spawn (view_of s)). constructor.
  - landed. apply (vs_spawn (view_of s)). constructor.
  - destruct (threads s !! t) as [[[ | | ]| | | | | ]|] eqn:Ht; try discriminate.
    destruct c; simpl.
    + destruct (C (ticker (bc s))); [|discriminate]. landed.
      apply (vs_move (view_of s) (view_of s) t _ _ Ht). constructor.
    + destruct (stop (bc s)) eqn:Es; [discriminate|]. landed.
      apply (vs_move (view_of s) (view_of s) t _ _ Ht).
      unfold view_of. rewrite Es. constructor.
  - destruct (threads s !! t) as [[p| |p|r|p| ]|] eqn:Ht; try discriminate.
    + destruct p as [ |q| ]; simpl; [discriminate| |].
      * destruct q as [ | |r]; simpl.
        -- unfold mutex_Lock. destruct (mutex (bc s)) eqn:Em; [discriminate|].
           landed.
           refine (vs_move (view_of s) (mkView (Some t) _ _ _ _) t _ _ Ht _).
           unfold view_of. rewrite Em. constructor.
        -- destruct (writer (bc s)) as [mw|].
           ++ destruct (Writer_Flush mw (net s)) as [[mw' nt'] err].
              landed.
              apply (vs_move (view_of s) (view_of s) t _ _ Ht). constructor.
           ++ landed. apply vs_stay.
        -- unfold mutex_Unlock. destruct (mutex (bc s)) eqn:Em.
           ++ landed.
              refine (vs_move (view_of s) (mkView None _ _ _ _) t _ _ Ht _).
              unfold view_of. rewrite Em. constructor.
           ++ landed. apply vs_stay.
      * destruct (done (bc s)) eqn:Ed.
        -- landed.
           refine (vs_move (view_of s) (mkView _ _ Closed _ _) t _ _ Ht _).
           unfold view_of. rewrite Ed. constructor.
        -- landed. apply vs_stay.
    + destruct p as [ | |r]; simpl.
      * unfold mutex_Lock. destruct (mutex (bc s)) eqn:Em; [discriminate|].
        landed.
        refine (vs_move (view_of s) (mkView (Some t) _ _ _ _) t _ _ Ht _).
        unfold view_of. rewrite Em. constructor.
      * destruct (writer (bc s)) as [mw|].
        -- destruct (Writer_Flush mw (net s)) as [[mw' nt'] err].
           landed.
           apply (vs_move (view_of s) (view_of s) t _ _ Ht). constructor.
        -- landed. apply vs_stay.
      * unfold mutex_Unlock. destruct (mutex (bc s)) eqn:Em.
        -- landed.
           refine (vs_move (view_of s) (mkView None _ _ _ _) t _ _ Ht _).
           unfold view_of. rewrite Em. constructor.
        -- landed. apply vs_stay.
    + destruct p; simpl.
      * unfold mutex_Lock. destruct (mutex (bc s)) eqn:Em; [discriminate|].
        landed.
        refine (vs_move (view_of s) (mkView (Some t) _ _ _ _) t _ _ Ht _).
        unfold view_of. rewrite Em. constructor.
      * landed.
        refine (vs_move (view_of s) (mkView _ _ _ false _) t _ _ Ht _).
        constructor.
      * destruct (stop (bc s)) eqn:Es.
        -- landed.
           refine (vs_move (view_of s) (mkView _ Closed _ _ _) t _ _ Ht _).
           unfold view_of. rewrite Es. constructor.
        -- landed. apply vs_stay.
      * destruct (done (bc s)) eqn:Ed; [discriminate|].
        landed.
        apply (vs_move (view_of s) (view_of s) t _ _ Ht).
        unfold view_of. rewrite Ed. constructor.
      * unfold mutex_Unlock. destruct (mutex (bc s)) eqn:Em.
        -- landed.
           refine (vs_move (view_of s) (mkView None _ _ _ _) t _ _ Ht _).
           unfold view_of. rewrite Em. constructor.
        -- landed. apply vs_stay.
Qed.

(** ** The invariants hold in every reachable world *)

Lemma inv_boot dct opts s : boot dct opts = Some s -> inv (view_of s).
Proof.
  unfold boot, NewBufferedClient.
  destruct (NewTicker _); [|discriminate]. intros [= <-].
  constructor; simpl; intros; try discriminate.
  all: match goal with H : [] !! _ = Some _ |- _ => inversion H end.
Qed.

Lemma inv_spawn v th :
  inv v -> entry th -> inv (v_set_threads (v_threads v ++ [th]) v).
Proof.
  intros [Io Ih Is Id Ia Iw Ie] He.
  constructor; simpl.
  - intros t th0 Hl Hh. apply lookup_snoc_Some in Hl as [[_ Hl] | [_ <-]].
    + eauto.
    + destruct He; discriminate.
  - intros t Hm. destruct (Ih t Hm) as (th0 & Hl & Hh).
    exists th0. split; [apply lookup_app_l_Some|]; assumption.
  - intros t th0 Hl Hh. apply lookup_snoc_Some in Hl as [[_ Hl] | [_ <-]].
    + eauto.
    + destruct He; discriminate.
  - intros t Hl. apply lookup_snoc_Some in Hl as [[_ Hl] | [_ Hl]].
    + eauto.
    + subst th. inversion He.
  - assumption.
  - intros t th0 Hl Hh. apply lookup_snoc_Some in Hl as [[_ Hl] | [_ <-]].
    + eauto.
    + destruct He; discriminate.
  - intros Hd. destruct (Ie Hd) as (t & Hl).
    exists t. apply lookup_app_l_Some. assumption.
Qed.

Lemma inv_move v v' t th th' :
  inv v -> v_threads v !! t = Some th -> move t th th' v v' ->
  inv (v_set_threads (<[t := th']> (v_threads v')) v').
Proof.
  intros [Io Ih Is Id Ia Iw Ie] Ht Hm.
  pose proof (lookup_lt_Some _ _ _ Ht) as Hlt.
  inversion Hm; subst; simpl in *; constructor; simpl.
  (* inv_owner, inv_signal, inv_wait *)
  all: try (intros t0 th0 Hl Hh; at_index Hl; simpl in *;
            try discriminate; try reflexivity; eauto;
            try (pose proof (Io _ _ Hl Hh)); try (pose proof (Io _ _ Ht eq_refl));
            congruence).
  (* inv_disarm *)
  all: try (intros t0 Hl; at_index Hl; simpl in *;
            try discriminate; try reflexivity; eauto; congruence).
  (* inv_held *)
  all: try (intros t0 Hm0; destruct (decide (t0 = t)) as [-> | Hne];
            [ eexists; rewrite list_lookup_insert_eq by assumption;
              split; [reflexivity|]; try reflexivity;
              destruct (Ih _ Hm0) as (x & Hx & Hhx); rewrite Ht in Hx;
              simplify_eq; discriminate
            | try congruence;
              destruct (Ih _ Hm0) as (x & Hx & Hhx); exists x;
              rewrite list_lookup_insert_ne by congruence; auto ]).
  (* inv_exit *)
  all: try (intros Hd;
            first [ destruct (Ie Hd) as (t1 & H1); exists t1;
                    rewrite list_lookup_insert_ne; [assumption|];
                    intros ->; rewrite Ht in H1; discriminate
                  | exists t; apply list_lookup_insert_eq; assumption ]).
  (* inv_armed, and a freed mutex *)
  all: try assumption.
  all: try (intros _; reflexivity).
  all: try (intros _; eauto).
  all: intros ? ?; discriminate.
Qed.

Lemma inv_vstep v v' : inv v -> vstep v v' -> inv v'.
Proof.
  intros Hi Hs. destruct Hs as [v | v th He | v v' t th th' Ht Hm].
  - assumption.
  - apply inv_spawn; assumption.
  - eapply inv_move; eassumption.
Qed.

Lemma inv_reachable s : reachable s -> inv (view_of s).
Proof.
  induction 1 as [dct opts s Hb | s l s' _ IH Hs].
  - eapply inv_boot; eassumption.
  - eapply inv_vstep; [exact IH | eapply step_view; eassumption].
Qed.

Lemma exec_reachable tr : forall s s',
  reachable s -> exec tr s = Some s' -> reachable s'.
Proof.
  induction tr as [|l tr IH]; intros s s' Hr He; simpl in He.
  - injection He as <-. assumption.
  - destruct (step l s) as [s1|] eqn:Hs; [|discriminate]. simpl in He.
    eapply IH; [|exact He]. eapply reach_step; eassumption.
Qed.

Lemma scenario_reachable opts tr s : scenario opts tr = Some s -> reachable s.
Proof.
  unfold scenario. destruct (boot (60 * Second) opts) as [s0|] eqn:Hb; [|discriminate].
  simpl. apply exec_reachable. eapply reach_boot; eassumption.
Qed.

(** What the invariants say of a world, spelled on its fields. *)

Lemma holder_of_mutex s t th :
  reachable s -> threads s !! t = Some th -> holds th = true ->
  mutex (bc s) = Some t.
Proof. intros Hr. exact (inv_owner _ (inv_reachable s Hr) t th). Qed.

Lemma returned_Stop_closed_both s :
  reachable s -> stop_returned s ->
  stop (bc s) = Closed /\ done (bc s) = Closed /\ armed (ticker (bc s)) = false.
Proof.
  intros Hr [t Ht]. pose proof (inv_reachable s Hr) as Hi.
  assert (stop (bc s) = Closed) as Hs
    by exact (inv_signal _ Hi t StopReturned Ht eq_refl).
  split; [exact Hs|]. split.
  - exact (inv_wait _ Hi t StopReturned Ht eq_refl).
  - exact (inv_armed _ Hi Hs).
Qed.

(** Channels are never reopened, goroutines never leave their final place,
    the pool only grows. *)
Lemma vstep_monotone v v' :
  vstep v v' ->
  (v_stop v = Closed -> v_stop v' = Closed)
  /\ (v_done v = Closed -> v_done v' = Closed)
  /\ (v_armed v = false -> v_armed v' = false)
  /\ (forall t, v_threads v !! t = Some StopReturned ->
                v_threads v' !! t = Some StopReturned)
  /\ (forall t, v_threads v !! t = Some FlushLoopExited ->
                v_threads v' !! t = Some FlushLoopExited).
Proof.
  intros [v0 | v0 th He | v0 v1 t th th' Ht Hm]; simpl.
  - tauto.
  - repeat split; try tauto; intros t Hl; apply lookup_app_l_Some; exact Hl.
  - inversion Hm; subst; simpl in *; repeat split; try tauto; try discriminate.
    all: intros t0 Hl; rewrite list_lookup_insert_ne; [exact Hl|];
      intros ->; rewrite Ht in Hl; discriminate.
Qed.

Lemma step_monotone l s s' :
  step l s = Some s' ->
  (stop (bc s) = Closed -> stop (bc s') = Closed)
  /\ (done (bc s) = Closed -> done (bc s') = Closed)
  /\ (armed (ticker (bc s)) = false -> armed (ticker (bc s')) = false)
  /\ (stop_returned s -> stop_returned s').
Proof.
  intros Hs. apply step_view in Hs. apply vstep_monotone in Hs.
  destruct Hs as (H1 & H2 & H3 & H4 & _). repeat split; try assumption.
  intros [t Ht]. exists t. apply H4. exact Ht.
Qed.

(** ** Stop and the mutex *)

(** Wherever [Stop] waits on [bc.done], it holds [bc.mutex]: the deferred
    unlock runs only after the wait. *)
Lemma Stop_waits_under_the_lock s t :
  reachable s -> threads s !! t = Some (InStop StopWaitDone) ->
  mutex (bc s) = Some t.
Proof. intros Hr Ht. exact (holder_of_mutex s t _ Hr Ht eq_refl). Qed.

(** C1 (the code departs from it): [Stop] keeps [bc.mutex] while it waits
    on [bc.done].  When the flush loop has taken a tick and is about to
    lock the mutex in [Sync], [Stop] (goroutine 1) ends up waiting on the
    open [done] channel with the mutex held, the loop (goroutine 0) waits
    for that mutex, and neither can move. *)
Theorem Stop_waits_for_done_holding_mutex :
  let s := of_scenario (scenario plain_options stop_during_tick) in
  scenario plain_options stop_during_tick = Some s
  /\ threads s = [InFlushLoop (LoopSync SyncLock); InStop StopWaitDone]
  /\ mutex (bc s) = Some 1%nat
  /\ done (bc s) = Open
  /\ crashed s = None
  /\ stuck s.
Proof.
  cbv zeta. repeat apply conj; try (vm_compute; reflexivity).
  intros t. split; [|intros c; destruct c];
    destruct t as [|[|t]]; vm_compute; reflexivity.
Qed.

(** ** Stop and the flush loops *)

Lemma only_loop_exited (ts : list thread) : forall i j p,
  (length (filter (fun th => is_loop th = true) ts) <= 1)%nat ->
  ts !! i = Some FlushLoopExited ->
  ts !! j = Some (InFlushLoop p) -> False.
Proof.
  induction ts as [|x ts IH]; intros i j p Hn Hi Hj; [inversion Hi|].
  assert (forall k th, ts !! k = Some th -> is_loop th = true ->
                       filter (fun th => is_loop th = true) ts <> []) as Hne.
  { intros k th Hk Hl E.
    assert (th ∈ filter (fun th => is_loop th = true) ts) as Hin
      by (apply list_elem_of_filter; split;
          [exact Hl | eapply list_elem_of_lookup_2; exact Hk]).
    rewrite E in Hin. inversion Hin. }
  destruct i as [|i], j as [|j]; simpl in Hi, Hj.
  - congruence.
  - injection Hi as ->. rewrite filter_cons_True in Hn by reflexivity.
    simpl in Hn. apply (Hne j _ Hj eq_refl).
    apply nil_length_inv. lia.
  - injection Hj as ->. rewrite filter_cons_True in Hn by reflexivity.
    simpl in Hn. apply (Hne i _ Hi eq_refl).
    apply nil_length_inv. lia.
  - apply (IH i j p); [|assumption|assumption].
    rewrite filter_cons in Hn. destruct (decide (is_loop x = true)); simpl in Hn; lia.
Qed.

(** With at most one flush loop ever started, a returned [Stop] means that
    the loop has exited, so no loop is left to flush. *)
Lemma Stop_returned_single_loop_exited s :
  reachable s -> (loops_started s <= 1)%nat -> stop_returned s ->
  forall t p, threads s !! t <> Some (InFlushLoop p).
Proof.
  intros Hr Hn Hret t p Ht.
  destruct (returned_Stop_closed_both s Hr Hret) as (_ & Hd & _).
  destruct (inv_exit _ (inv_reachable s Hr) Hd) as (i & Hi).
  exact (only_loop_exited (threads s) i t p Hn Hi Ht).
Qed.

(** C3 (the code departs from it): every successful Connect starts one more
    flush loop on the same two channels.  After Connect, Disconnect, Connect
    there are two loops; [Stop] returns as soon as one of them has closed
    [done], and the other, which was waiting for the mutex inside [Sync],
    then flushes the two buffered bytes to the connection and later panics
    closing [done] a second time. *)
Theorem flush_loop_flushes_after_Stop_returned :
  let s := of_scenario (scenario plain_options stop_with_two_loops) in
  scenario plain_options stop_with_two_loops = Some s
  /\ threads s = [InFlushLoop (LoopSync SyncFlush); FlushLoopExited; StopReturned]
  /\ stop_returned s
  /\ loops_started s = 2%nat
  /\ received 1%nat s = []
  /\ loop_flush (Run 0%nat) s
  /\ (exists s', step (Run 0%nat) s = Some s' /\ received 1%nat s' = [x01; x02])
  /\ (exists s', exec [Run 0%nat; Run 0%nat; Select 0%nat CaseStop; Run 0%nat] s = Some s'
                 /\ crashed s' = Some CloseOfClosedChannel).
Proof.
  cbv zeta. repeat apply conj; try (vm_compute; reflexivity).
  - exists 2%nat. vm_compute. reflexivity.
  - exists 0%nat. split; vm_compute; reflexivity.
  - eexists. split; vm_compute; reflexivity.
  - eexists. split; vm_compute; reflexivity.
Qed.

(** ** Flush errors *)

Lemma step_Run_loop s t p :
  crashed s = None -> threads s !! t = Some (InFlushLoop p) ->
  step (Run t) s =
    settle t InFlushLoop (fun _ => FlushLoopExited) <$> flushLoop_step t p s.
Proof. intros Hc Ht. unfold step. rewrite Hc, Ht. reflexivity. Qed.

Lemma step_Select_loop s t c :
  crashed s = None -> threads s !! t = Some (InFlushLoop LoopSelect) ->
  step (Select t c) s =
    settle t InFlushLoop (fun _ => FlushLoopExited) <$> flushLoop_select c s.
Proof. intros Hc Ht. unfold step. rewrite Hc, Ht. reflexivity. Qed.

Lemma step_Run_stop s t p :
  crashed s = None -> threads s !! t = Some (InStop p) ->
  step (Run t) s = settle t InStop (fun _ => StopReturned) <$> Stop_step t p s.
Proof. intros Hc Ht. unfold step. rewrite Hc, Ht. reflexivity. Qed.

Lemma move_keeps_pool t th th' v v' : move t th th' v v' -> v_threads v' = v_threads v.
Proof. intros Hm. inversion Hm; reflexivity. Qed.

Lemma vstep_in_Sync v v' t q :
  vstep v v' ->
  v_threads v !! t = Some (InFlushLoop (LoopSync q)) ->
  v_threads v' !! t = Some (InFlushLoop LoopSelect)
  \/ exists q', v_threads v' !! t = Some (InFlushLoop (LoopSync q')).
Proof.
  intros [v0 | v0 th He | v0 v1 t0 th th' Ht0 Hm] Ht; simpl.
  - right. exists q. exact Ht.
  - right. exists q. apply lookup_app_l_Some. exact Ht.
  - rewrite (move_keeps_pool _ _ _ _ _ Hm).
    destruct (decide (t0 = t)) as [-> | Hne].
    + rewrite Ht in Ht0. injection Ht0 as <-.
      rewrite list_lookup_insert_eq by (eapply lookup_lt_Some; exact Ht).
      inversion Hm; subst; eauto.
    + right. exists q. rewrite list_lookup_insert_ne by assumption. exact Ht.
Qed.

(** A flush loop leaves only through the stop case of its select: inside
    [Sync], whatever the flush returned, its next place is again inside
    [Sync] or back at the select. *)
Lemma flushLoop_stays_in_loop l s s' t q :
  step l s = Some s' ->
  threads s !! t = Some (InFlushLoop (LoopSync q)) ->
  threads s' !! t = Some (InFlushLoop LoopSelect)
  \/ exists q', threads s' !! t = Some (InFlushLoop (LoopSync q')).
Proof.
  intros Hs Ht. apply step_view in Hs.
  exact (vstep_in_Sync (view_of s) (view_of s') t q Hs Ht).
Qed.

(** C6: when [bc.writer.Flush()] fails with [e], a direct [Sync] returns
    [e] to its caller, while a flush loop that took a tick runs the same
    [Sync], drops the error and is back at its select, alive; and a loop
    that is inside [Sync] never goes from there to its exit. *)
Theorem tick_flush_error_dropped_Sync_error_returned :
  forall (s : World) (t : nat) (mw mw' : Writer) (nt' : list Conn) (e : error),
    crashed s = None ->
    mutex (bc s) = None ->
    writer (bc s) = Some mw ->
    Writer_Flush mw (net s) = (mw', nt', Some e) ->
    (exists s', Sync t s = Some (s', Returns (Some e)))
    /\ (threads s !! t = Some (InFlushLoop LoopSelect) ->
        C (ticker (bc s)) = true ->
        exists s',
          exec [Select t CaseTick; Run t; Run t; Run t] s = Some s'
          /\ threads s' !! t = Some (InFlushLoop LoopSelect)
          /\ crashed s' = None)
    /\ (forall l s1 s2 q,
          step l s1 = Some s2 ->
          threads s1 !! t = Some (InFlushLoop (LoopSync q)) ->
          threads s2 !! t <> Some FlushLoopExited
          /\ threads s2 !! t <> Some (InFlushLoop LoopCloseDone)).
Proof.
  intros s t mw mw' nt' e Hc Hm Hw Hf. split; [|split].
  - unfold Sync. simpl. unfold mutex_Lock. rewrite Hm. simpl.
    rewrite Hw, Hf. simpl. eexists. reflexivity.
  - intros Ht HC.
    pose proof (lookup_lt_Some _ _ _ Ht) as Hlt.
    unfold exec.
    rewrite (step_Select_loop s t CaseTick Hc Ht). simpl. rewrite HC. simpl.
    erewrite step_Run_loop;
      [|simpl; exact Hc|simpl; apply list_lookup_insert_eq; exact Hlt].
    simpl. unfold mutex_Lock. simpl. rewrite Hm. simpl.
    erewrite step_Run_loop;
      [|simpl; exact Hc
       |simpl; apply list_lookup_insert_eq; rewrite length_insert; exact Hlt].
    simpl. rewrite Hw, Hf. simpl.
    erewrite step_Run_loop;
      [|simpl; exact Hc
       |simpl; apply list_lookup_insert_eq; rewrite !length_insert; exact Hlt].
    simpl. eexists. split; [reflexivity|]. split; [|exact Hc].
    simpl. apply list_lookup_insert_eq. rewrite !length_insert. exact Hlt.
  - intros l s1 s2 q Hs Ht.
    destruct (flushLoop_stays_in_loop l s1 s2 t q Hs Ht) as [H | [q' H]];
      rewrite H; split; discriminate.
Qed.

(** The theorem applies: two bytes are buffered, the connection has broken,
    a tick is waiting and the flush loop is goroutine 0. *)
Lemma tick_flush_error_witness :
  let s := of_scenario (scenario plain_options broken_link) in
  (exists s', Sync 7%nat s = Some (s', Returns (Some WriteFailure)))
  /\ (exists s',
        exec [Select 0%nat CaseTick; Run 0%nat; Run 0%nat; Run 0%nat] s = Some s'
        /\ threads s' !! 0%nat = Some (InFlushLoop LoopSelect)
        /\ crashed s' = None).
Proof.
  cbv zeta.
  destruct (tick_flush_error_dropped_Sync_error_returned
              (of_scenario (scenario plain_options broken_link)) 0%nat
              (mkWriter 0 1048576 [x01; x02]) (mkWriter 0 1048576 [x01; x02])
              [mkConn false [] []] WriteFailure)
    as (_ & Hloop & _); try (vm_compute; reflexivity).
  destruct (tick_flush_error_dropped_Sync_error_returned
              (of_scenario (scenario plain_options broken_link)) 7%nat
              (mkWriter 0 1048576 [x01; x02]) (mkWriter 0 1048576 [x01; x02])
              [mkConn false [] []] WriteFailure)
    as (Hsync & _ & _); try (vm_compute; reflexivity).
  split; [exact Hsync|].
  apply Hloop; vm_compute; reflexivity.
Defined.

(** ** Stopping twice, and connecting again after a stop *)

(** C8: [Stop] has no latch.  In every world reached after one [Stop] has
    returned, [bc.stop] is closed; a later [Stop] that has the mutex reaches
    [close(bc.stop)] and panics with "close of closed channel", and a whole
    second call does so as soon as the mutex is free. *)
Theorem second_Stop_closes_closed_channel :
  forall (s : World),
    reachable s -> stop_returned s -> crashed s = None ->
    stop (bc s) = Closed
    /\ (forall t, threads s !! t = Some (InStop StopCloseStop) ->
          exists s', step (Run t) s = Some s'
                     /\ crashed s' = Some CloseOfClosedChannel)
    /\ (forall t, mutex (bc s) = None ->
          exists s', Stop t s = Some (s', Panics CloseOfClosedChannel)).
Proof.
  intros s Hr Hret Hc.
  destruct (returned_Stop_closed_both s Hr Hret) as (Hs & _ & _).
  split; [exact Hs|]. split.
  - intros t Ht. rewrite (step_Run_stop s t _ Hc Ht). simpl. rewrite Hs.
    eexists. split; reflexivity.
  - intros t Hm. unfold Stop. simpl. unfold mutex_Lock. rewrite Hm. simpl.
    rewrite Hs. eexists. reflexivity.
Qed.

(** The theorem applies to the world left by Connect and one clean [Stop]
    (goroutine 1): a second call, by goroutine 2, panics. *)
Lemma second_Stop_witness :
  let s := of_scenario (scenario plain_options clean_stop) in
  threads s !! 1%nat = Some StopReturned
  /\ stop (bc s) = Closed
  /\ exists s', Stop 2%nat s = Some (s', Panics CloseOfClosedChannel).
Proof.
  cbv zeta.
  assert (reachable (of_scenario (scenario plain_options clean_stop))) as Hr
    by (apply (scenario_reachable plain_options clean_stop); vm_compute; reflexivity).
  assert (stop_returned (of_scenario (scenario plain_options clean_stop))) as Hret
    by (exists 1%nat; vm_compute; reflexivity).
  destruct (second_Stop_closes_closed_channel _ Hr Hret) as (Hs & _ & Hcall);
    [vm_compute; reflexivity|].
  split; [vm_compute; reflexivity|]. split; [exact Hs|].
  apply Hcall. vm_compute. reflexivity.
Defined.

Lemma Disconnect_ends_session s :
  exists s1, Disconnect s = (s1, None)
             /\ session (base (bc s1)) = None
             /\ view_of s1 = view_of s
             /\ ticker (bc s1) = ticker (bc s)
             /\ crashed s1 = crashed s.
Proof.
  unfold Disconnect, Client_Disconnect, Client_disconnect.
  eexists. split; [reflexivity|].
  destruct (session (base (bc s))) as [ses|]; [|repeat split].
  destruct (net s !! Connection ses); repeat split.
Qed.

Lemma Connect_starts_loop s tp :
  session (base (bc s)) = None ->
  exists s2, Connect (DialOk tp) s = (s2, None)
             /\ threads s2 = threads s ++ [InFlushLoop LoopSelect]
             /\ stop (bc s2) = stop (bc s)
             /\ done (bc s2) = done (bc s)
             /\ ticker (bc s2) = ticker (bc s)
             /\ crashed s2 = crashed s.
Proof.
  intros Hs. unfold Connect. rewrite Hs. unfold connect. simpl.
  eexists. repeat split.
Qed.

(** C10: [stop] and [done] are made once by the constructor and no step
    reopens them.  In every world reached after a [Stop] has returned both
    are closed and the ticker is disarmed, and they stay so.  Disconnect and
    a successful Connect then start a new flush loop on those same channels:
    its select finds [stop] closed, and, with no tick left in the ticker
    channel, that is its only ready case; it returns, and its deferred
    [close(bc.done)] panics on the closed channel.  The ticker gives no
    further tick. *)
Theorem reconnect_after_Stop_has_no_scheduler :
  forall (s : World) (tp : bool),
    reachable s -> stop_returned s -> crashed s = None ->
    (stop (bc s) = Closed /\ done (bc s) = Closed /\ armed (ticker (bc s)) = false)
    /\ (forall l s', step l s = Some s' ->
          stop (bc s') = Closed /\ done (bc s') = Closed /\ stop_returned s')
    /\ exists s1 s2 s3 s4,
         Disconnect s = (s1, None)
         /\ Connect (DialOk tp) s1 = (s2, None)
         /\ threads s2 = threads s ++ [InFlushLoop LoopSelect]
         /\ stop (bc s2) = Closed /\ done (bc s2) = Closed
         /\ step Tick s2 = None
         /\ (C (ticker (bc s)) = false ->
             step (Select (length (threads s)) CaseTick) s2 = None)
         /\ step (Select (length (threads s)) CaseStop) s2 = Some s3
         /\ threads s3 !! length (threads s) = Some (InFlushLoop LoopCloseDone)
         /\ step (Run (length (threads s))) s3 = Some s4
         /\ crashed s4 = Some CloseOfClosedChannel.
Proof.
  intros s tp Hr Hret Hc.
  destruct (returned_Stop_closed_both s Hr Hret) as (Hs & Hd & Ha).
  split; [auto|]. split.
  - intros l s' Hst. destruct (step_monotone l s s' Hst) as (H1 & H2 & _ & H4).
    auto.
  - destruct (Disconnect_ends_session s) as (s1 & E1 & Hses & Hv & Htk & Hc1).
    destruct (Connect_starts_loop s1 tp Hses) as (s2 & E2 & Hts & Hs2 & Hd2 & Htk2 & Hc2).
    assert (threads s1 = threads s) as Hts1
      by exact (f_equal v_threads Hv).
    assert (stop (bc s1) = stop (bc s)) as Hs1 by exact (f_equal v_stop Hv).
    assert (done (bc s1) = done (bc s)) as Hd1 by exact (f_equal v_done Hv).
    rewrite Hts1 in Hts. rewrite Hs1, Hs in Hs2. rewrite Hd1, Hd in Hd2.
    rewrite Htk in Htk2. rewrite Hc1, Hc in Hc2.
    assert (threads s2 !! length (threads s) = Some (InFlushLoop LoopSelect)) as Hnew
      by (rewrite Hts; apply list_lookup_middle; reflexivity).
    exists s1, s2.
    exists (set_threads (<[length (threads s) := InFlushLoop LoopCloseDone]> (threads s2)) s2).
    eexists.
    split; [exact E1|]. split; [exact E2|]. split; [exact Hts|].
    split; [exact Hs2|]. split; [exact Hd2|]. split.
    { unfold step. rewrite Hc2, Htk2, Ha. reflexivity. }
    split.
    { intros HC. rewrite (step_Select_loop s2 _ CaseTick Hc2 Hnew). simpl.
      rewrite Htk2, HC. reflexivity. }
    split.
    { rewrite (step_Select_loop s2 _ CaseStop Hc2 Hnew). simpl.
      rewrite Hs2. reflexivity. }
    assert (<[length (threads s) := InFlushLoop LoopCloseDone]> (threads s2)
              !! length (threads s) = Some (InFlushLoop LoopCloseDone)) as Hat.
    { apply list_lookup_insert_eq. eapply lookup_lt_Some. exact Hnew. }
    split; [exact Hat|].
    erewrite step_Run_loop; [|exact Hc2|exact Hat].
    simpl. rewrite Hd2. split; reflexivity.
Qed.

(** The theorem applies to the world left by Connect and one clean [Stop]:
    after Disconnect and Connect, goroutine 2 is the new flush loop, and its
    two steps end in the panic. *)
Lemma reconnect_after_Stop_witness :
  let s := of_scenario (scenario plain_options clean_stop) in
  stop_returned s
  /\ exists s1 s2 s3 s4,
       Disconnect s = (s1, None)
       /\ Connect (DialOk true) s1 = (s2, None)
       /\ step (Select 2%nat CaseStop) s2 = Some s3
       /\ step (Run 2%nat) s3 = Some s4
       /\ crashed s4 = Some CloseOfClosedChannel.
Proof.
  cbv zeta.
  assert (reachable (of_scenario (scenario plain_options clean_stop))) as Hr
    by (apply (scenario_reachable plain_options clean_stop); vm_compute; reflexivity).
  assert (stop_returned (of_scenario (scenario plain_options clean_stop))) as Hret
    by (exists 1%nat; vm_compute; reflexivity).
  split; [exact Hret|].
  destruct (reconnect_after_Stop_has_no_scheduler _ true Hr Hret)
    as (_ & _ & s1 & s2 & s3 & s4 & E1 & E2 & _ & _ & _ & _ & _ & E3 & _ & E4 & Hp);
    [vm_compute; reflexivity|].
  exists s1, s2, s3, s4. auto.
Defined.

(** * Further properties *)

(** ** The writer on a live connection *)

Lemma Writer_flush_up mw nt c :
  nt !! w mw = Some c -> up c = true ->
  Writer_flush mw nt =
    (mkWriter (w mw) (cap mw) [],
     <[w mw := mkConn true (wire c ++ buf mw) (acks c)]> nt, None).
Proof.
  intros Hl Hu. unfold Writer_flush.
  destruct mw as [h k b]; simpl in *. destruct b as [|x b].
  - rewrite app_nil_r. destruct c as [u wr ak]; simpl in *; subst u.
    rewrite (list_insert_id _ _ _ Hl). reflexivity.
  - unfold net_Write. rewrite Hl. unfold Conn_Write. rewrite Hu. reflexivity.
Qed.

Lemma Writer_Write_up mw p nt c :
  nt !! w mw = Some c -> up c = true ->
  exists mw' c',
    Writer_Write mw p nt = (mw', <[w mw := c']> nt, (len p, None))
    /\ w mw' = w mw /\ cap mw' = cap mw
    /\ up c' = true /\ acks c' = acks c
    /\ wire c' ++ buf mw' = wire c ++ buf mw ++ p.
Proof.
  intros Hl Hu. unfold Writer_Write.
  destruct (avail mw <? len p).
  - rewrite (Writer_flush_up mw nt c Hl Hu). simpl.
    destruct (cap mw <? len p).
    + unfold net_Write.
      rewrite list_lookup_insert_eq by (eapply lookup_lt_Some; exact Hl).
      unfold Conn_Write. simpl. rewrite list_insert_insert_eq.
      eexists _, _. split; [reflexivity|]. simpl.
      repeat split. rewrite app_nil_r, app_assoc. reflexivity.
    + eexists _, _. split; [reflexivity|]. simpl.
      repeat split. rewrite app_assoc. reflexivity.
  - exists (mkWriter (w mw) (cap mw) (buf mw ++ p)), c.
    rewrite (list_insert_id _ _ _ Hl). simpl. repeat split; assumption.
Qed.

Lemma Writer_flush_error mw nt mw' nt' e :
  Writer_flush mw nt = (mw', nt', Some e) -> mw' = mw /\ nt' = nt.
Proof.
  unfold Writer_flush. destruct (buf mw) as [|x b]; [discriminate|].
  unfold net_Write. destruct (nt !! w mw) as [c|] eqn:Hl.
  - unfold Conn_Write. destruct (up c); [discriminate|]. simpl.
    intros [= <- <- _]. split; [reflexivity|]. apply list_insert_id. exact Hl.
  - simpl. intros [= <- <- _]. split; reflexivity.
Qed.

Lemma received_insert_eq h c (s : World) nt :
  (h < length nt)%nat -> received h (set_net (<[h := c]> nt) s) = wire c.
Proof.
  intros Hlt. unfold received. simpl.
  rewrite list_lookup_insert_eq by exact Hlt. reflexivity.
Qed.

(** ** Sync *)

Lemma Sync_live :
  forall (s : World) (t h : nat),
    linked h s -> mutex (bc s) = None ->
    exists s',
      Sync t s = Some (s', Returns None)
      /\ received h s' = received h s ++ buffered s
      /\ buffered s' = []
      /\ mutex (bc s') = None
      /\ linked h s'
      /\ forall h', h' <> h -> received h' s' = received h' s.
Proof.
  intros s t h [(mw & Hw & Hh) (c & Hl & Hu)] Hm. subst h.
  pose proof (lookup_lt_Some _ _ _ Hl) as Hlt.
  unfold Sync. simpl. unfold mutex_Lock. rewrite Hm. simpl. rewrite Hw.
  unfold Writer_Flush. rewrite (Writer_flush_up mw (net s) c Hl Hu). simpl.
  eexists. split; [reflexivity|].
  unfold received, buffered, linked. simpl. rewrite Hw, Hl.
  rewrite list_lookup_insert_eq by exact Hlt. simpl.
  repeat split; eauto.
  intros h' Hne. rewrite list_lookup_insert_ne by congruence. reflexivity.
Qed.

(** X1: on a live connection a direct [Sync] puts every buffered byte on
    the wire, after what was already there and in order, empties the buffer,
    returns nil and leaves the mutex free; other connections are not
    touched. *)
Theorem Sync_delivers_the_buffer :
  forall (s : World) (t h : nat),
    linked h s -> mutex (bc s) = None ->
    exists s',
      Sync t s = Some (s', Returns None)
      /\ received h s' = received h s ++ buffered s
      /\ buffered s' = []
      /\ mutex (bc s') = None
      /\ linked h s'
      /\ forall h', h' <> h -> received h' s' = received h' s.
Proof. exact Sync_live. Qed.

Lemma Sync_delivers_witness :
  exists s',
    Sync 9%nat buffering_world = Some (s', Returns None)
    /\ received 0%nat s' = [x01; x02]
    /\ buffered s' = [].
Proof.
  destruct (Sync_delivers_the_buffer buffering_world 9%nat 0%nat)
    as (s' & E & Hr & Hb & _).
  - split; eexists; split; vm_compute; reflexivity.
  - vm_compute. reflexivity.
  - exists s'. split; [exact E|]. split; [exact Hr|exact Hb].
Defined.

Lemma Sync_failed :
  forall (s : World) (t : nat) (mw mw' : Writer) (nt' : list Conn) (e : error),
    mutex (bc s) = None ->
    writer (bc s) = Some mw ->
    Writer_Flush mw (net s) = (mw', nt', Some e) ->
    exists s',
      Sync t s = Some (s', Returns (Some e))
      /\ buffered s' = buffered s
      /\ net s' = net s
      /\ mutex (bc s') = None.
Proof.
  intros s t mw mw' nt' e Hm Hw Hf.
  destruct (Writer_flush_error mw (net s) mw' nt' e Hf) as [-> ->].
  unfold Sync. simpl. unfold mutex_Lock. rewrite Hm. simpl. rewrite Hw, Hf.
  simpl. eexists. split; [reflexivity|].
  unfold buffered. simpl. rewrite Hw. repeat split.
Qed.

Lemma Writer_flush_down mw nt c :
  nt !! w mw = Some c -> up c = false -> buf mw <> [] ->
  Writer_flush mw nt = (mw, nt, Some WriteFailure).
Proof.
  intros Hl Hu Hb. unfold Writer_flush.
  destruct (buf mw) as [|x b] eqn:E; [contradiction|].
  unfold net_Write. rewrite Hl. unfold Conn_Write. rewrite Hu. simpl.
  rewrite (list_insert_id _ _ _ Hl). reflexivity.
Qed.

(** X2: a [Sync] on a connection that is already down, with bytes in the
    buffer, returns the write error and loses nothing: the connection took
    no byte, the buffer and every connection are as before the call, and
    the mutex is free again, so the same bytes can be flushed later. *)
Theorem Sync_failure_keeps_the_buffer :
  forall (s : World) (t : nat) (mw : Writer) (c : Conn),
    mutex (bc s) = None ->
    writer (bc s) = Some mw ->
    net s !! w mw = Some c -> up c = false ->
    buf mw <> [] ->
    exists s',
      Sync t s = Some (s', Returns (Some WriteFailure))
      /\ buffered s' = buffered s
      /\ net s' = net s
      /\ mutex (bc s') = None.
Proof.
  intros s t mw c Hm Hw Hl Hu Hb.
  apply (Sync_failed s t mw mw (net s) WriteFailure Hm Hw).
  exact (Writer_flush_down mw (net s) c Hl Hu Hb).
Qed.

Lemma Sync_failure_witness :
  let s := of_scenario (scenario plain_options broken_link) in
  exists s',
    Sync 9%nat s = Some (s', Returns (Some WriteFailure))
    /\ buffered s' = [x01; x02]
    /\ received 0%nat s' = [].
Proof.
  cbv zeta.
  destruct (Sync_failure_keeps_the_buffer
              (of_scenario (scenario plain_options broken_link)) 9%nat
              (mkWriter 0 1048576 [x01; x02]) (mkConn false [] []))
    as (s' & E & Hb & Hn & _); try (vm_compute; reflexivity).
  - discriminate.
  - exists s'. split; [exact E|]. split.
    + rewrite Hb. vm_compute. reflexivity.
    + unfold received. rewrite Hn. vm_compute. reflexivity.
Defined.

(** ** SendRaw *)

Lemma SendRaw_stream :
  forall (s : World) (h : nat) (m : list byte) (dur : Z),
    accepting s -> linked h s ->
    exists s',
      SendRaw m dur s = (s', Returns None)
      /\ received h s' ++ buffered s' = received h s ++ buffered s ++ m
      /\ totalBytesWritten (stats s') =
           add64 (totalBytesWritten (stats s)) (wrap64 (len m))
      /\ accepting s' /\ linked h s'
      /\ mutex (bc s') = mutex (bc s).
Proof.
  intros s h m dur (ses & Hs & Htp) [(mw & Hw & Hh) (c & Hl & Hu)]. subst h.
  pose proof (lookup_lt_Some _ _ _ Hl) as Hlt.
  destruct (Writer_Write_up mw m (net s) c Hl Hu)
    as (mw' & c' & E & Hw' & _ & Hu' & _ & Hstream).
  unfold SendRaw. rewrite Hs, Htp, Hw. simpl. rewrite E.
  eexists. split; [reflexivity|].
  unfold received, buffered, accepting, linked. simpl. rewrite Hw, Hl.
  rewrite list_lookup_insert_eq by exact Hlt.
  repeat split; eauto.
Qed.

(** X3: a [SendRaw] that passes its checks on a live connection returns
    nil and keeps every byte: what the connection has received followed by
    what the buffer holds grows by exactly the message, in order.  The
    client is as fit for the next call as before, and the mutex is not
    touched. *)
Theorem SendRaw_keeps_every_byte :
  forall (s : World) (h : nat) (m : list byte) (dur : Z),
    accepting s -> linked h s ->
    exists s',
      SendRaw m dur s = (s', Returns None)
      /\ received h s' ++ buffered s' = received h s ++ buffered s ++ m
      /\ totalBytesWritten (stats s') =
           add64 (totalBytesWritten (stats s)) (wrap64 (len m))
      /\ accepting s' /\ linked h s'
      /\ mutex (bc s') = mutex (bc s).
Proof. exact SendRaw_stream. Qed.

Lemma SendRaw_keeps_witness :
  exists s',
    SendRaw [x03] 7 buffering_world = (s', Returns None)
    /\ received 0%nat s' ++ buffered s' = [x01; x02; x03].
Proof.
  destruct (SendRaw_keeps_every_byte buffering_world 0%nat [x03] 7)
    as (s' & E & Hst & _).
  - eexists. split; vm_compute; reflexivity.
  - split; eexists; split; vm_compute; reflexivity.
  - exists s'. split; [exact E|]. rewrite Hst. vm_compute. reflexivity.
Defined.

(** X4: a [SendRaw] whose bytes fit in the free space of the buffer does no
    I/O at all: it returns nil and appends to the buffer, and no connection
    changes, whether the wrapped connection is alive or not. *)
Theorem SendRaw_that_fits_does_no_IO :
  forall (s : World) (mw : Writer) (m : list byte) (dur : Z),
    accepting s -> writer (bc s) = Some mw -> len m <= avail mw ->
    exists s',
      SendRaw m dur s = (s', Returns None)
      /\ net s' = net s
      /\ buffered s' = buffered s ++ m.
Proof.
  intros s mw m dur (ses & Hs & Htp) Hw Hfit.
  unfold SendRaw. rewrite Hs, Htp, Hw. simpl.
  rewrite (Writer_Write_fits mw m (net s) Hfit).
  eexists. split; [reflexivity|].
  unfold buffered. simpl. rewrite Hw. split; reflexivity.
Qed.

Lemma SendRaw_that_fits_witness :
  let s := of_scenario (scenario plain_options
             [CallConnect (DialOk true); NetDown 0%nat]) in
  exists s',
    SendRaw [x01; x02] 5 s = (s', Returns None)
    /\ net s' = [mkConn false [] []]
    /\ buffered s' = [x01; x02].
Proof.
  cbv zeta.
  destruct (SendRaw_that_fits_does_no_IO
              (of_scenario (scenario plain_options
                 [CallConnect (DialOk true); NetDown 0%nat]))
              (mkWriter 0 1048576 []) [x01; x02] 5)
    as (s' & E & Hn & Hb).
  - eexists. split; vm_compute; reflexivity.
  - vm_compute. reflexivity.
  - vm_compute. discriminate.
  - exists s'. split; [exact E|]. split.
    + rewrite Hn. vm_compute. reflexivity.
    + rewrite Hb. vm_compute. reflexivity.
Defined.

Lemma SendRaw_all_stream ms : forall (s : World) (h : nat),
  accepting s -> linked h s ->
  received h (SendRaw_all ms s) ++ buffered (SendRaw_all ms s) =
    received h s ++ buffered s ++ concat (map fst ms)
  /\ accepting (SendRaw_all ms s) /\ linked h (SendRaw_all ms s)
  /\ mutex (bc (SendRaw_all ms s)) = mutex (bc s).
Proof.
  induction ms as [|[m dur] ms IH]; intros s h Ha Hl; simpl.
  - rewrite app_nil_r. auto.
  - destruct (SendRaw_stream s h m dur Ha Hl)
      as (s' & E & Hst & _ & Ha' & Hl' & Hm').
    rewrite E. simpl.
    destruct (IH s' h Ha' Hl') as (Hst2 & Ha2 & Hl2 & Hm2).
    split; [|split; [exact Ha2|split; [exact Hl2|congruence]]].
    rewrite Hst2, app_assoc, Hst, <- !app_assoc. reflexivity.
Qed.

(** X5: any run of [SendRaw] calls followed by one [Sync] delivers: on a
    live connection, after the [Sync] the connection has received what it
    had, then what was buffered, then every message in the order of the
    calls, and the buffer is empty. *)
Theorem sends_then_Sync_deliver_in_order :
  forall (s : World) (h t : nat) (ms : list (list byte * Z)),
    accepting s -> linked h s -> mutex (bc s) = None ->
    exists s',
      Sync t (SendRaw_all ms s) = Some (s', Returns None)
      /\ received h s' = received h s ++ buffered s ++ concat (map fst ms)
      /\ buffered s' = [].
Proof.
  intros s h t ms Ha Hl Hm.
  destruct (SendRaw_all_stream ms s h Ha Hl) as (Hst & _ & Hl' & Hm').
  destruct (Sync_live (SendRaw_all ms s) t h Hl')
    as (s' & E & Hr & Hb & _); [congruence|].
  exists s'. split; [exact E|]. split; [|exact Hb].
  rewrite Hr. exact Hst.
Qed.

Lemma sends_then_Sync_witness :
  exists s',
    Sync 9%nat (SendRaw_all [([x03], 7); ([], 1); ([x04; x05], 2)] buffering_world)
      = Some (s', Returns None)
    /\ received 0%nat s' = [x01; x02; x03; x04; x05]
    /\ buffered s' = [].
Proof.
  destruct (sends_then_Sync_deliver_in_order buffering_world 0%nat 9%nat
              [([x03], 7); ([], 1); ([x04; x05], 2)])
    as (s' & E & Hr & Hb).
  - eexists. split; vm_compute; reflexivity.
  - split; eexists; split; vm_compute; reflexivity.
  - vm_compute. reflexivity.
  - exists s'. split; [exact E|]. split; [|exact Hb].
    rewrite Hr. vm_compute. reflexivity.
Defined.

(** ** Send *)

Lemma len_app (a b : list byte) : len (a ++ b) = len a + len b.
Proof. unfold len. rewrite length_app. lia. Qed.

Lemma len_nonneg (a : list byte) : 0 <= len a.
Proof. unfold len. lia. Qed.

Lemma write_all_fits ps : forall mw nt,
  len (concat ps) <= avail mw ->
  write_all ps mw nt = (mkWriter (w mw) (cap mw) (buf mw ++ concat ps), nt, None).
Proof.
  induction ps as [|p ps IH]; intros mw nt Hfit; simpl in *.
  - rewrite app_nil_r. destruct mw; reflexivity.
  - rewrite len_app in Hfit. pose proof (len_nonneg (concat ps)).
    rewrite Writer_Write_fits by lia.
    rewrite IH; simpl.
    + rewrite <- app_assoc. reflexivity.
    + unfold avail in *. simpl. rewrite len_app. lia.
Qed.

Lemma Client_checkAck_frame chunk s :
  buffered (fst (Client_checkAck chunk s)) = buffered s
  /\ stats (fst (Client_checkAck chunk s)) = stats s
  /\ forall h, received h (fst (Client_checkAck chunk s)) = received h s.
Proof.
  unfold Client_checkAck.
  destruct (session (base (bc s))) as [ses|]; [|repeat split].
  destruct (net s !! Connection ses) as [[u wr [|tok rest]]|] eqn:Hl;
    try (repeat split; fail).
  simpl. repeat split. intros h. unfold received. simpl.
  destruct (decide (Connection ses = h)) as [<- | Hne].
  - rewrite list_lookup_insert_eq by (eapply lookup_lt_Some; exact Hl).
    rewrite Hl. reflexivity.
  - rewrite list_lookup_insert_ne by exact Hne. reflexivity.
Qed.

(** X6: a [Send] whose encoding fits in the free space of the buffer puts
    nothing on any connection: when it returns, with or without require-ack
    and whatever the acknowledgment check said, every connection has
    received exactly what it had before and the encoded bytes are at the
    end of the buffer.  Without require-ack the call returns nil. *)
Theorem Send_that_fits_stays_buffered :
  forall (s : World) (mw : Writer) (e : ChunkEncoder),
    accepting s ->
    writer (bc s) = Some mw ->
    len (concat (Pieces e)) <= avail mw ->
    EncodeErr e = None ->
    (RequireAck (base (bc s)) = true -> snd (Chunk e) = None) ->
    buffered (fst (Send e s)) = buffered s ++ concat (Pieces e)
    /\ (forall h, received h (fst (Send e s)) = received h s)
    /\ (RequireAck (base (bc s)) = false -> snd (Send e s) = Returns None).
Proof.
  intros s mw e (ses & Hs & Htp) Hw Hfit Henc Hchunk.
  unfold Send. rewrite Hs, Htp. simpl.
  destruct (RequireAck (base (bc s))) eqn:Hack.
  - destruct (Chunk e) as [chunk cerr]. simpl in Hchunk.
    rewrite (Hchunk eq_refl). rewrite Hw. unfold EncodeMsg.
    rewrite (write_all_fits _ _ _ Hfit), Henc.
    match goal with
    | |- context [Client_checkAck ?c ?s1] =>
        destruct (Client_checkAck_frame c s1) as (Hb & _ & Hr);
        destruct (Client_checkAck c s1) as [s2 r]
    end.
    simpl in *. rewrite Hb. unfold buffered at 1. simpl.
    unfold buffered. rewrite Hw.
    split; [reflexivity|]. split; [|discriminate].
    intros h. rewrite Hr. reflexivity.
  - rewrite Hw. unfold EncodeMsg.
    rewrite (write_all_fits _ _ _ Hfit), Henc. simpl.
    unfold buffered. simpl. rewrite Hw. repeat split.
Qed.

Lemma Send_that_fits_witness :
  let s := of_scenario (scenario ack_options awaiting_ack) in
  buffered (fst (Send small_record s)) = [x93; x01; x02]
  /\ received 0%nat (fst (Send small_record s)) = [].
Proof.
  cbv zeta.
  destruct (Send_that_fits_stays_buffered
              (of_scenario (scenario ack_options awaiting_ack))
              (mkWriter 0 1048576 []) small_record)
    as (Hb & Hr & _).
  - eexists. split; vm_compute; reflexivity.
  - vm_compute. reflexivity.
  - vm_compute. discriminate.
  - reflexivity.
  - intros _. reflexivity.
  - split; [rewrite Hb | rewrite Hr]; vm_compute; reflexivity.
Defined.



(** X8: [Send] records no metrics: whatever the record, the session and
    the outcome, the four counters are after the call what they were
    before; only [SendRaw] counts. *)
Theorem Send_records_no_metrics :
  forall (s : World) (e : ChunkEncoder), stats (fst (Send e s)) = stats s.
Proof.
  intros s e. unfold Send.
  destruct (session (base (bc s))) as [ses|]; [|reflexivity].
  destruct (TransportPhase ses); [|reflexivity]. simpl.
  destruct (if RequireAck (base (bc s)) then Chunk e else (""%string, None))
    as [chunk [x|]]; [reflexivity|].
  destruct (writer (bc s)) as [mw|]; [|reflexivity].
  destruct (EncodeMsg e mw (net s)) as [[mw' nt'] [x|]]; [reflexivity|].
  destruct (RequireAck (base (bc s))); [|reflexivity].
  match goal with
  | |- context [Client_checkAck ?c ?s1] =>
      destruct (Client_checkAck_frame c s1) as (_ & Hst & _);
      destruct (Client_checkAck c s1) as [s2 r]
  end.
  exact Hst.
Qed.

(** ** The mutex and the handshake, in every reachable world *)

(** X9: mutual exclusion.  In every reachable world at most one goroutine
    is between a [Lock] and the matching [Unlock] of [bc.mutex]: two
    flushes, scheduled or direct, never overlap, and none overlaps the
    locked part of [Stop]. *)
Theorem one_goroutine_inside_the_mutex :
  forall (s : World) (t1 t2 : nat) (th1 th2 : thread),
    reachable s ->
    threads s !! t1 = Some th1 -> holds th1 = true ->
    threads s !! t2 = Some th2 -> holds th2 = true ->
    t1 = t2.
Proof.
  intros s t1 t2 th1 th2 Hr H1 Hh1 H2 Hh2.
  pose proof (holder_of_mutex s t1 th1 Hr H1 Hh1) as E1.
  pose proof (holder_of_mutex s t2 th2 Hr H2 Hh2) as E2.
  congruence.
Qed.

Lemma one_goroutine_witness :
  let s := of_scenario (scenario plain_options stop_during_tick) in
  threads s !! 1%nat = Some (InStop StopWaitDone) /\ 1%nat = 1%nat.
Proof.
  cbv zeta. split; [vm_compute; reflexivity|].
  apply (one_goroutine_inside_the_mutex
           (of_scenario (scenario plain_options stop_during_tick))
           1%nat 1%nat (InStop StopWaitDone) (InStop StopWaitDone)).
  - apply (scenario_reachable plain_options stop_during_tick).
    vm_compute. reflexivity.
  - vm_compute. reflexivity.
  - reflexivity.
  - vm_compute. reflexivity.
  - reflexivity.
Defined.

Lemma exited_loop_counts (ts : list thread) t :
  ts !! t = Some FlushLoopExited ->
  (1 <= length (filter (fun th => is_loop th = true) ts))%nat.
Proof.
  intros Ht.
  assert (FlushLoopExited ∈ filter (fun th => is_loop th = true) ts) as Hin
    by (apply list_elem_of_filter; split;
        [reflexivity | eapply list_elem_of_lookup_2; exact Ht]).
  destruct (filter (fun th => is_loop th = true) ts); [inversion Hin | simpl; lia].
Qed.

(** X10: [Stop] can only return after a flush loop has exited.  On a client
    on which no Connect has succeeded there is no loop to close [done], so
    no call of [Stop] has returned or got past its wait, in any reachable
    world. *)
Theorem Stop_never_returns_without_a_loop :
  forall (s : World) (t : nat),
    reachable s -> loops_started s = 0%nat ->
    threads s !! t <> Some StopReturned
    /\ threads s !! t <> Some (InStop StopUnlock).
Proof.
  intros s t Hr Hn. pose proof (inv_reachable s Hr) as Hi.
  assert (done (bc s) = Closed -> False) as Hd.
  { intros Hd. destruct (inv_exit _ Hi Hd) as (i & Hx).
    pose proof (exited_loop_counts (threads s) i Hx) as Hc.
    unfold loops_started in Hn. lia. }
  split; intros Ht; apply Hd.
  - exact (inv_wait _ Hi t _ Ht eq_refl).
  - exact (inv_wait _ Hi t _ Ht eq_refl).
Qed.

Lemma Stop_never_returns_witness :
  let s := of_scenario (scenario plain_options early_stop) in
  threads s = [InStop StopWaitDone]
  /\ threads s !! 0%nat <> Some StopReturned
  /\ step (Run 0%nat) s = None.
Proof.
  cbv zeta. split; [vm_compute; reflexivity|]. split.
  - apply (Stop_never_returns_without_a_loop
             (of_scenario (scenario plain_options early_stop)) 0%nat).
    + apply (scenario_reachable plain_options early_stop). vm_compute. reflexivity.
    + vm_compute. reflexivity.
  - vm_compute. reflexivity.
Defined.

(** ** The scheduled flush *)

Lemma exec_app tr1 tr2 : forall s,
  exec (tr1 ++ tr2) s = s1 ← exec tr1 s; exec tr2 s1.
Proof.
  induction tr1 as [|l tr1 IH]; intros s; simpl; [reflexivity|].
  destruct (step l s) as [s1|]; simpl; [apply IH | reflexivity].
Qed.

Lemma Sync_returns_inv s t s' r :
  Sync t s = Some (s', Returns r) ->
  mutex (bc s) = None
  /\ exists mw mw' nt',
       writer (bc s) = Some mw
       /\ Writer_Flush mw (net s) = (mw', nt', r)
       /\ s' = set_bc (with_mutex None)
                 (set_net nt' (set_bc (with_writer (Some mw'))
                                 (set_bc (with_mutex (Some t)) s))).
Proof.
  unfold Sync. simpl. unfold mutex_Lock.
  destruct (mutex (bc s)) eqn:Hm; [discriminate|]. simpl.
  destruct (writer (bc s)) as [mw|] eqn:Hw; [|discriminate].
  destruct (Writer_Flush mw (net s)) as [[mw' nt'] err] eqn:Hf. simpl.
  intros [= <- <-]. split; [reflexivity|].
  exists mw, mw', nt'. repeat split; try assumption.
Qed.

Lemma loop_runs_Sync :
  forall (s s' : World) (t : nat) (r : option error),
    crashed s = None ->
    threads s !! t = Some (InFlushLoop (LoopSync SyncLock)) ->
    Sync t s = Some (s', Returns r) ->
    exec [Run t; Run t; Run t] s =
      Some (set_threads (<[t := InFlushLoop LoopSelect]> (threads s')) s').
Proof.
  intros s s' t r Hc Ht HS.
  destruct (Sync_returns_inv s t s' r HS) as (Hm & mw & mw' & nt' & Hw & Hf & ->).
  pose proof (lookup_lt_Some _ _ _ Ht) as Hlt.
  unfold exec.
  rewrite (step_Run_loop s t _ Hc Ht). simpl.
  unfold mutex_Lock. rewrite Hm. simpl.
  erewrite step_Run_loop; [|simpl; exact Hc|pool].
  simpl. rewrite Hw, Hf. simpl.
  erewrite step_Run_loop; [|simpl; exact Hc|pool].
  simpl. rewrite !list_insert_insert_eq. reflexivity.
Qed.

(** X11: what a flush loop does with a tick is one whole [Sync]: if
    [Sync], run by that goroutine, returns [r] and leaves world [s'], then
    the loop's three instructions after taking the tick leave the same
    world, with the loop back at its select and [r] dropped. *)
Theorem scheduled_flush_is_one_Sync :
  forall (s s' : World) (t : nat) (r : option error),
    crashed s = None ->
    threads s !! t = Some (InFlushLoop (LoopSync SyncLock)) ->
    Sync t s = Some (s', Returns r) ->
    exec [Run t; Run t; Run t] s =
      Some (set_threads (<[t := InFlushLoop LoopSelect]> (threads s')) s').
Proof. exact loop_runs_Sync. Qed.

Lemma scheduled_flush_witness :
  let s := of_scenario (scenario plain_options
             [CallConnect (DialOk true); CallSendRaw [x01; x02] 5;
              Tick; Select 0%nat CaseTick]) in
  exists s',
    Sync 0%nat s = Some (s', Returns None)
    /\ exec [Run 0%nat; Run 0%nat; Run 0%nat] s =
         Some (set_threads (<[0%nat := InFlushLoop LoopSelect]> (threads s')) s').
Proof.
  cbv zeta. eexists. split.
  - vm_compute. reflexivity.
  - apply (scheduled_flush_is_one_Sync
             (of_scenario (scenario plain_options
                [CallConnect (DialOk true); CallSendRaw [x01; x02] 5;
                 Tick; Select 0%nat CaseTick])) _ 0%nat None);
      vm_compute; reflexivity.
Defined.

Lemma step_CallSendRaw s m dur :
  crashed s = None -> step (CallSendRaw m dur) s = Some (finish (SendRaw m dur s)).
Proof. intros Hc. unfold step. rewrite Hc. reflexivity. Qed.

Lemma step_Tick s :
  crashed s = None -> armed (ticker (bc s)) = true ->
  step Tick s = Some (set_bc (fun b => with_ticker (mkTicker true true) b) s).
Proof. intros Hc Ha. unfold step. rewrite Hc, Ha. reflexivity. Qed.

Lemma SendRaw_frame m dur s :
  crashed (fst (SendRaw m dur s)) = crashed s
  /\ threads (fst (SendRaw m dur s)) = threads s
  /\ ticker (bc (fst (SendRaw m dur s))) = ticker (bc s).
Proof.
  unfold SendRaw.
  destruct (session (base (bc s))) as [ses|]; [|repeat split].
  destruct (TransportPhase ses); [|repeat split]. simpl.
  destruct (writer (bc s)) as [mw|]; [|repeat split].
  destruct (Writer_Write mw m (net s)) as [[mw' nt'] [n err]]. repeat split.
Qed.

(** X12: bytes accepted by [SendRaw] reach the connection at the next tick.
    With a live connection, a free mutex, an armed ticker and the flush
    loop at its select: after the [SendRaw], a tick and the loop's turn,
    the connection has received what it had, what was buffered and the
    message, in that order; the buffer is empty, the mutex free and the
    loop back at its select. *)
Theorem tick_delivers_what_was_sent :
  forall (s : World) (t h : nat) (m : list byte) (dur : Z),
    crashed s = None ->
    accepting s -> linked h s ->
    mutex (bc s) = None ->
    armed (ticker (bc s)) = true ->
    threads s !! t = Some (InFlushLoop LoopSelect) ->
    exists s',
      exec [CallSendRaw m dur; Tick; Select t CaseTick; Run t; Run t; Run t] s
        = Some s'
      /\ received h s' = received h s ++ buffered s ++ m
      /\ buffered s' = []
      /\ mutex (bc s') = None
      /\ threads s' !! t = Some (InFlushLoop LoopSelect)
      /\ crashed s' = None.
Proof.
  intros s t h m dur Hc Ha Hl Hm Harm Ht.
  pose proof (lookup_lt_Some _ _ _ Ht) as Hlt.
  destruct (SendRaw_stream s h m dur Ha Hl)
    as (s1 & E1 & Hst & _ & _ & Hl1 & Hm1).
  destruct (SendRaw_frame m dur s) as (Hc1 & Hts1 & Htk1).
  rewrite E1 in Hc1, Hts1, Htk1. simpl in Hc1, Hts1, Htk1.
  rewrite Hc in Hc1. rewrite Hm in Hm1.
  set (s3 := set_threads (<[t := InFlushLoop (LoopSync SyncLock)]> (threads s1))
               (set_bc (fun b => with_ticker (mkTicker true false) b) s1)).
  assert (exec [CallSendRaw m dur; Tick; Select t CaseTick] s = Some s3) as E3.
  { cbn [exec]. rewrite (step_CallSendRaw s m dur Hc), E1. simpl.
    rewrite step_Tick by congruence. simpl.
    rewrite step_Select_loop; [|exact Hc1|simpl; rewrite Hts1; exact Ht].
    reflexivity. }
  assert (linked h s3) as Hl3.
  { destruct Hl1 as [Hw Hn]. split; [exact Hw | exact Hn]. }
  destruct (Sync_live s3 t h Hl3 Hm1)
    as (s' & ES & Hr & Hb & Hm' & _ & _).
  assert (crashed s3 = None) as Hc3 by exact Hc1.
  assert (threads s3 !! t = Some (InFlushLoop (LoopSync SyncLock))) as Ht3.
  { simpl. apply list_lookup_insert_eq. rewrite Hts1. exact Hlt. }
  pose proof (loop_runs_Sync s3 s' t None Hc3 Ht3 ES) as E6.
  exists (set_threads (<[t := InFlushLoop LoopSelect]> (threads s')) s').
  split.
  { change [CallSendRaw m dur; Tick; Select t CaseTick; Run t; Run t; Run t]
      with ([CallSendRaw m dur; Tick; Select t CaseTick] ++ [Run t; Run t; Run t]).
    rewrite exec_app, E3. exact E6. }
  destruct (Sync_returns_inv s3 t s' None ES) as (_ & mw & mw' & nt' & _ & _ & Es').
  assert (threads s' = threads s3) as Hts' by (rewrite Es'; reflexivity).
  assert (crashed s' = crashed s3) as Hcs' by (rewrite Es'; reflexivity).
  split.
  { change (received h s' = received h s ++ buffered s ++ m).
    rewrite Hr. exact Hst. }
  split; [exact Hb|]. split; [exact Hm'|]. split.
  - simpl. apply list_lookup_insert_eq. rewrite Hts'. simpl.
    rewrite length_insert, Hts1. exact Hlt.
  - simpl. rewrite Hcs'. exact Hc3.
Qed.

Lemma tick_delivers_witness :
  exists s',
    exec [CallSendRaw [x01] 3; Tick; Select 0%nat CaseTick;
          Run 0%nat; Run 0%nat; Run 0%nat] connected_world = Some s'
    /\ received 0%nat s' = [x01]
    /\ buffered s' = [].
Proof.
  destruct (tick_delivers_what_was_sent connected_world 0%nat 0%nat [x01] 3)
    as (s' & E & Hr & Hb & _).
  - vm_compute. reflexivity.
  - eexists. split; vm_compute; reflexivity.
  - split; eexists; split; vm_compute; reflexivity.
  - vm_compute. reflexivity.
  - vm_compute. reflexivity.
  - vm_compute. reflexivity.
  - exists s'. split; [exact E|]. split; [|exact Hb].
    rewrite Hr. vm_compute. reflexivity.
Defined.

(** ** A clean Stop *)

Lemma step_GoStop s :
  crashed s = None -> step GoStop s = Some (go (InStop StopLock) s).
Proof. intros Hc. unfold step. rewrite Hc. reflexivity. Qed.

Lemma Stop_runs_clean :
  forall (s : World) (t : nat),
    crashed s = None ->
    mutex (bc s) = None -> stop (bc s) = Open -> done (bc s) = Open ->
    threads s !! t = Some (InFlushLoop LoopSelect) ->
    exists s',
      exec [GoStop; Run (length (threads s)); Run (length (threads s));
            Run (length (threads s)); Select t CaseStop; Run t;
            Run (length (threads s)); Run (length (threads s))] s = Some s'
      /\ threads s' !! length (threads s) = Some StopReturned
      /\ threads s' !! t = Some FlushLoopExited
      /\ mutex (bc s') = None
      /\ armed (ticker (bc s')) = false
      /\ writer (bc s') = writer (bc s)
      /\ net s' = net s
      /\ crashed s' = None.
Proof.
  intros s t Hc Hm Hs Hd Ht.
  pose proof (lookup_lt_Some _ _ _ Ht) as Hlt.
  cbn [exec]. rewrite (step_GoStop s Hc). simpl.
  erewrite step_Run_stop; [|simpl; exact Hc|pool].
  simpl. unfold mutex_Lock. simpl. rewrite Hm. simpl.
  erewrite step_Run_stop; [|simpl; exact Hc|pool].
  simpl.
  erewrite step_Run_stop; [|simpl; exact Hc|pool].
  simpl. rewrite Hs. simpl.
  erewrite step_Select_loop; [|simpl; exact Hc|pool].
  simpl.
  erewrite step_Run_loop; [|simpl; exact Hc|pool].
  simpl. rewrite Hd. simpl.
  erewrite step_Run_stop; [|simpl; exact Hc|pool].
  simpl.
  erewrite step_Run_stop; [|simpl; exact Hc|pool].
  simpl.
  eexists. split; [reflexivity|]. simpl.
  split; [pool|]. split; [pool|]. repeat split. exact Hc.
Qed.




(** ** Disconnect, Reconnect and a second Connect *)

(** X14: [Disconnect] neither flushes nor stops anything.  It ends the
    session and leaves every goroutine, the ticker and the writer as they
    were; bytes still buffered at that moment are stranded: a [Sync] after
    it fails with the write error, the bytes stay in the buffer and the
    closed connection has received none of them. *)
Theorem Disconnect_strands_the_buffer :
  forall (s : World) (ses : Session) (mw : Writer) (c : Conn) (t : nat),
    session (base (bc s)) = Some ses ->
    writer (bc s) = Some mw ->
    w mw = Connection ses ->
    net s !! Connection ses = Some c ->
    buf mw <> [] ->
    mutex (bc s) = None ->
    exists s1 s2,
      Disconnect s = (s1, None)
      /\ session (base (bc s1)) = None
      /\ threads s1 = threads s
      /\ ticker (bc s1) = ticker (bc s)
      /\ writer (bc s1) = Some mw
      /\ Sync t s1 = Some (s2, Returns (Some WriteFailure))
      /\ buffered s2 = buf mw
      /\ received (Connection ses) s2 = wire c.
Proof.
  intros s ses mw c t Hs Hw Hh Hl Hb Hm.
  pose proof (lookup_lt_Some _ _ _ Hl) as Hlt.
  unfold Disconnect, Client_Disconnect, Client_disconnect. rewrite Hs, Hl.
  eexists. 
  assert (Writer_Flush mw (<[Connection ses := Conn_Close c]> (net s))
            = (mw, <[Connection ses := Conn_Close c]> (net s), Some WriteFailure))
    as Hf.
  { apply (Writer_flush_down mw _ (Conn_Close c)).
    - rewrite Hh. apply list_lookup_insert_eq. exact Hlt.
    - reflexivity.
    - exact Hb. }
  match goal with
  | |- exists s2, (?a, None) = (?s1, None) /\ _ =>
      destruct (Sync_failed a t mw mw
                  (<[Connection ses := Conn_Close c]> (net s)) WriteFailure)
        as (s2 & ES & Hb2 & Hn2 & _); [exact Hm | exact Hw | exact Hf |]
  end.
  exists s2. split; [reflexivity|]. simpl in *.
  repeat split; try assumption.
  - rewrite Hb2. unfold buffered. simpl. rewrite Hw. reflexivity.
  - unfold received. rewrite Hn2. simpl.
    rewrite list_lookup_insert_eq by exact Hlt. reflexivity.
Qed.

Lemma Disconnect_strands_witness :
  exists s1 s2,
    Disconnect buffering_world = (s1, None)
    /\ Sync 9%nat s1 = Some (s2, Returns (Some WriteFailure))
    /\ buffered s2 = [x01; x02]
    /\ received 0%nat s2 = [].
Proof.
  destruct (Disconnect_strands_the_buffer buffering_world
              (mkSession 0 true) (mkWriter 0 1048576 [x01; x02])
              (mkConn true [] []) 9%nat)
    as (s1 & s2 & E1 & _ & _ & _ & _ & E2 & Hb & Hr);
    try (vm_compute; reflexivity).
  - discriminate.
  - exists s1, s2. auto.
Defined.

(** X15: [Reconnect] goes to the base client only.  It gives the client a
    session on a new connection but builds no writer and starts no flush
    loop: the writer still wraps the previous connection, which is now
    closed, so what is buffered cannot be flushed and the new connection
    receives nothing from [Sync]. *)
Theorem Reconnect_keeps_the_old_writer :
  forall (s : World) (ses : Session) (mw : Writer) (c : Conn) (tp : bool) (t : nat),
    session (base (bc s)) = Some ses ->
    writer (bc s) = Some mw ->
    w mw = Connection ses ->
    net s !! Connection ses = Some c ->
    buf mw <> [] ->
    mutex (bc s) = None ->
    exists s1 s2,
      Reconnect (DialOk tp) s = (s1, None)
      /\ session (base (bc s1)) = Some (mkSession (length (net s)) tp)
      /\ writer (bc s1) = Some mw
      /\ w mw <> length (net s)
      /\ threads s1 = threads s
      /\ Sync t s1 = Some (s2, Returns (Some WriteFailure))
      /\ buffered s2 = buf mw
      /\ received (length (net s)) s2 = [].
Proof.
  intros s ses mw c tp t Hs Hw Hh Hl Hb Hm.
  pose proof (lookup_lt_Some _ _ _ Hl) as Hlt.
  unfold Reconnect, Client_Reconnect, Client_disconnect. rewrite Hs, Hl.
  unfold Client_connect. simpl. rewrite length_insert.
  eexists.
  set (nt := <[Connection ses := Conn_Close c]> (net s) ++ [mkConn true [] []]).
  assert (Writer_Flush mw nt = (mw, nt, Some WriteFailure)) as Hf.
  { apply (Writer_flush_down mw _ (Conn_Close c)).
    - unfold nt. rewrite Hh. apply lookup_app_l_Some.
      apply list_lookup_insert_eq. exact Hlt.
    - reflexivity.
    - exact Hb. }
  match goal with
  | |- exists s2, (?a, None) = (?s1, None) /\ _ =>
      destruct (Sync_failed a t mw mw nt WriteFailure)
        as (s2 & ES & Hb2 & Hn2 & _); [exact Hm | exact Hw | exact Hf |]
  end.
  exists s2. split; [reflexivity|]. simpl in *.
  repeat split; try assumption.
  - rewrite Hh. lia.
  - rewrite Hb2. unfold buffered. simpl. rewrite Hw. reflexivity.
  - unfold received. rewrite Hn2. simpl. fold nt. unfold nt.
    rewrite list_lookup_middle by (rewrite length_insert; reflexivity).
    reflexivity.
Qed.

Lemma Reconnect_keeps_witness :
  exists s1 s2,
    Reconnect (DialOk true) buffering_world = (s1, None)
    /\ session (base (bc s1)) = Some (mkSession 1 true)
    /\ Sync 9%nat s1 = Some (s2, Returns (Some WriteFailure))
    /\ received 1%nat s2 = [].
Proof.
  destruct (Reconnect_keeps_the_old_writer buffering_world
              (mkSession 0 true) (mkWriter 0 1048576 [x01; x02])
              (mkConn true [] []) true 9%nat)
    as (s1 & s2 & E1 & Hs & _ & _ & _ & E2 & _ & Hr);
    try (vm_compute; reflexivity).
  - discriminate.
  - exists s1, s2. auto.
Defined.

(** X16: a successful [Connect] installs a new, empty writer on the new
    connection and starts one more flush loop.  Whatever the previous
    writer still held is dropped with it: the buffer is empty after the
    call and no earlier connection has received anything more. *)
Theorem Connect_replaces_the_writer :
  forall (s : World) (tp : bool),
    session (base (bc s)) = None ->
    exists s',
      Connect (DialOk tp) s = (s', None)
      /\ session (base (bc s')) = Some (mkSession (length (net s)) tp)
      /\ linked (length (net s)) s'
      /\ buffered s' = []
      /\ received (length (net s)) s' = []
      /\ (forall h, (h < length (net s))%nat -> received h s' = received h s)
      /\ threads s' = threads s ++ [InFlushLoop LoopSelect]
      /\ loops_started s' = S (loops_started s).
Proof.
  intros s tp Hs. unfold Connect. rewrite Hs. unfold connect. simpl.
  eexists. split; [reflexivity|].
  unfold linked, buffered, received, loops_started. simpl.
  rewrite list_lookup_middle by reflexivity.
  repeat split; eauto.
  - intros h Hlt. rewrite lookup_app_l by exact Hlt. reflexivity.
  - rewrite filter_app, length_app. simpl. lia.
Qed.

Lemma Connect_replaces_witness :
  exists s',
    Connect (DialOk true) disconnected_world = (s', None)
    /\ buffered disconnected_world = [x01; x02]
    /\ buffered s' = []
    /\ received 0%nat s' = []
    /\ loops_started s' = 2%nat.
Proof.
  destruct (Connect_replaces_the_writer disconnected_world true)
    as (s' & E & _ & _ & Hb & _ & Hold & _ & Hn).
  - vm_compute. reflexivity.
  - exists s'. split; [exact E|]. split; [vm_compute; reflexivity|].
    split; [exact Hb|]. split.
    + rewrite (Hold 0%nat); vm_compute; [reflexivity | lia].
    + rewrite Hn. vm_compute. reflexivity.
Defined.

(** ** Which panics can happen *)

Lemma loops_insert (ts : list thread) : forall t th th',
  ts !! t = Some th -> is_loop th' = is_loop th ->
  length (filter (fun x => is_loop x = true) (<[t := th']> ts)) =
  length (filter (fun x => is_loop x = true) ts).
Proof.
  induction ts as [|x ts IH]; intros t th th' Ht Hl; [inversion Ht|].
  destruct t as [|t]; simpl in *.
  - injection Ht as ->. rewrite !filter_cons.
    destruct (decide (is_loop th' = true)), (decide (is_loop th = true));
      simpl; congruence.
  - rewrite !filter_cons. destruct (decide (is_loop x = true)); simpl;
      rewrite (IH t th th' Ht Hl); reflexivity.
Qed.

Lemma loops_snoc (ts : list thread) th :
  is_loop th = false ->
  length (filter (fun x => is_loop x = true) (ts ++ [th])) =
  length (filter (fun x => is_loop x = true) ts).
Proof.
  intros Hl. rewrite filter_app, length_app, filter_cons.
  destruct (decide (is_loop th = true)); [congruence|]. simpl. lia.
Qed.

Lemma step_effects l s s' :
  step l s = Some s' ->
  (writer (bc s') = None ->
     writer (bc s) = None /\ loops_started s' = loops_started s)
  /\ match crashed s' with
     | None => True
     | Some CloseOfClosedChannel => True
     | Some NilDereference => writer (bc s') = None
     | Some UnlockOfUnlockedMutex =>
         mutex (bc s) = None
         /\ exists t th, threads s !! t = Some th /\ holds th = true
     | Some NonPositiveInterval => False
     end.
Proof.
  unfold step. destruct (crashed s) eqn:Hc; [discriminate|].
  destruct l as [ |h|h tok|d| |d|m dur|e| | |t c|t].
  - destruct (armed (ticker (bc s))); [|discriminate]. landed.
    simpl. rewrite Hc. auto.
  - destruct (net s !! h); simpl; [|discriminate]. landed.
    simpl. rewrite Hc. auto.
  - destruct (net s !! h); simpl; [|discriminate]. landed.
    simpl. rewrite Hc. auto.
  - landed. unfold Connect, connect.
    destruct (session (base (bc s))); [simpl; rewrite Hc; auto|].
    destruct d as [|tp]; simpl; rewrite Hc; [auto|].
    split; [discriminate | exact I].
  - landed. unfold Disconnect, Client_Disconnect, Client_disconnect.
    destruct (session (base (bc s))) as [ses|]; [|simpl; rewrite Hc; auto].
    destruct (net s !! Connection ses); simpl; rewrite Hc; auto.
  - landed. unfold Reconnect, Client_Reconnect, Client_disconnect.
    destruct (session (base (bc s))) as [ses|];
      [destruct (net s !! Connection ses)|]; destruct d; simpl; rewrite Hc; auto.
  - landed. unfold SendRaw.
    destruct (session (base (bc s))) as [ses|]; [|simpl; rewrite Hc; auto].
    destruct (TransportPhase ses); [|simpl; rewrite Hc; auto]. simpl.
    destruct (writer (bc s)) as [mw|] eqn:Hw; [|simpl; auto].
    destruct (Writer_Write mw m (net s)) as [[mw' nt'] [n err]]. simpl.
    rewrite Hc. split; [discriminate | exact I].
  - landed. unfold Send.
    destruct (session (base (bc s))) as [ses|]; [|simpl; rewrite Hc; auto].
    destruct (TransportPhase ses); [|simpl; rewrite Hc; auto]. simpl.
    destruct (if RequireAck (base (bc s)) then Chunk e else (""%string, None))
      as [chunk [x|]]; [simpl; rewrite Hc; auto|].
    destruct (writer (bc s)) as [mw|] eqn:Hw; [|simpl; auto].
    destruct (EncodeMsg e mw (net s)) as [[mw' nt'] [x|]];
      [simpl; rewrite Hc; split; [discriminate | exact I]|].
    destruct (RequireAck (base (bc s)));
      [|simpl; rewrite Hc; split; [discriminate | exact I]].
    unfold Client_checkAck. simpl.
    destruct (session (base (bc s))) as [ses'|];
      [|simpl; rewrite Hc; split; [discriminate | exact I]].
    destruct (nt' !! Connection ses') as [[u wr [|tok rest]]|];
      simpl; rewrite Hc; split; try discriminate; exact I.
  - landed. simpl. rewrite Hc. split; [|exact I].
    intros Hw. split; [exact Hw|]. apply loops_snoc. reflexivity.
  - landed. simpl. rewrite Hc. split; [|exact I].
    intros Hw. split; [exact Hw|]. apply loops_snoc. reflexivity.
  - destruct (threads s !! t) as [[[ | | ]| | | | | ]|] eqn:Ht; try discriminate.
    destruct c; simpl.
    + destruct (C (ticker (bc s))); [|discriminate]. landed.
      simpl. rewrite Hc. split; [|exact I].
      intros Hw. split; [exact Hw|]. eapply loops_insert; [exact Ht|reflexivity].
    + destruct (stop (bc s)); [discriminate|]. landed.
      simpl. rewrite Hc. split; [|exact I].
      intros Hw. split; [exact Hw|]. eapply loops_insert; [exact Ht|reflexivity].
  - destruct (threads s !! t) as [[p| |p|r|p| ]|] eqn:Ht; try discriminate.
    + destruct p as [ |[ | |r]| ]; simpl; try discriminate.
      * unfold mutex_Lock. destruct (mutex (bc s)); [discriminate|]. landed.
        simpl. rewrite Hc. split; [|exact I].
        intros Hw. split; [exact Hw|]. eapply loops_insert; [exact Ht|reflexivity].
      * destruct (writer (bc s)) as [mw|] eqn:Hw.
        -- destruct (Writer_Flush mw (net s)) as [[mw' nt'] err]. landed.
           simpl. rewrite Hc. split; [discriminate | exact I].
        -- landed. simpl. auto.
      * unfold mutex_Unlock. destruct (mutex (bc s)) eqn:Hm; landed; simpl.
        -- rewrite Hc. split; [|exact I].
           intros Hw. split; [exact Hw|].
           eapply loops_insert; [exact Ht|reflexivity].
        -- split; [auto|]. split; [reflexivity|]. eauto.
      * destruct (done (bc s)); landed; simpl; [rewrite Hc|]; split; try exact I.
        -- intros Hw. split; [exact Hw|].
           eapply loops_insert; [exact Ht|reflexivity].
        -- auto.
    + destruct p as [ | |r]; simpl.
      * unfold mutex_Lock. destruct (mutex (bc s)); [discriminate|]. landed.
        simpl. rewrite Hc. split; [|exact I].
        intros Hw. split; [exact Hw|]. eapply loops_insert; [exact Ht|reflexivity].
      * destruct (writer (bc s)) as [mw|] eqn:Hw.
        -- destruct (Writer_Flush mw (net s)) as [[mw' nt'] err]. landed.
           simpl. rewrite Hc. split; [discriminate | exact I].
        -- landed. simpl. auto.
      * unfold mutex_Unlock. destruct (mutex (bc s)) eqn:Hm; landed; simpl.
        -- rewrite Hc. split; [|exact I].
           intros Hw. split; [exact Hw|].
           eapply loops_insert; [exact Ht|reflexivity].
        -- split; [auto|]. split; [reflexivity|]. eauto.
    + destruct p; simpl.
      * unfold mutex_Lock. destruct (mutex (bc s)); [discriminate|]. landed.
        simpl. rewrite Hc. split; [|exact I].
        intros Hw. split; [exact Hw|]. eapply loops_insert; [exact Ht|reflexivity].
      * landed. simpl. rewrite Hc. split; [|exact I].
        intros Hw. split; [exact Hw|]. eapply loops_insert; [exact Ht|reflexivity].
      * destruct (stop (bc s)); landed; simpl; [rewrite Hc|]; split; try exact I.
        -- intros Hw. split; [exact Hw|].
           eapply loops_insert; [exact Ht|reflexivity].
        -- auto.
      * destruct (done (bc s)); [discriminate|]. landed.
        simpl. rewrite Hc. split; [|exact I].
        intros Hw. split; [exact Hw|]. eapply loops_insert; [exact Ht|reflexivity].
      * unfold mutex_Unlock. destruct (mutex (bc s)) eqn:Hm; landed; simpl.
        -- rewrite Hc. split; [|exact I].
           intros Hw. split; [exact Hw|].
           eapply loops_insert; [exact Ht|reflexivity].
        -- split; [auto|]. split; [reflexivity|]. eauto.
Qed.

Lemma writer_invariant s :
  reachable s ->
  crashed s <> Some UnlockOfUnlockedMutex
  /\ (writer (bc s) = None -> loops_started s = 0%nat).
Proof.
  induction 1 as [dct opts s Hb | s l s' Hr [IHc IHw] Hs].
  - unfold boot, NewBufferedClient in Hb.
    destruct (NewTicker _); [|discriminate]. injection Hb as <-.
    split; [discriminate | reflexivity].
  - destruct (step_effects l s s' Hs) as [Hw Hcr]. split.
    + intros E. rewrite E in Hcr.
      destruct Hcr as (Hm & t & th & Ht & Hh).
      pose proof (holder_of_mutex s t th Hr Ht Hh). congruence.
    + intros Hn. destruct (Hw Hn) as [Hn0 ->]. exact (IHw Hn0).
Qed.

(** X17: the nil writer of C5 is confined to a client that was never
    connected.  In every reachable world in which a flush loop has been
    started (a Connect has succeeded), [bc.writer] is not nil, and no call
    of [Sync] panics on a nil writer: it blocks on the mutex or returns.
    And in no reachable world has the client panicked on unlocking an
    unlocked mutex: every [Unlock] of [bc.mutex] is run by the goroutine
    that holds it. *)
Theorem writer_is_there_once_connected :
  forall (s : World),
    reachable s ->
    crashed s <> Some UnlockOfUnlockedMutex
    /\ ((1 <= loops_started s)%nat ->
        (exists mw, writer (bc s) = Some mw)
        /\ forall t s', Sync t s <> Some (s', Panics NilDereference)).
Proof.
  intros s Hr. destruct (writer_invariant s Hr) as [Hc Hw].
  split; [exact Hc|]. intros Hn.
  destruct (writer (bc s)) as [mw|] eqn:E.
  - split; [eauto|]. intros t s'.
    unfold Sync. simpl. unfold mutex_Lock.
    destruct (mutex (bc s)); [discriminate|]. simpl. rewrite E.
    destruct (Writer_Flush mw (net s)) as [[mw' nt'] err]. simpl.
    discriminate.
  - specialize (Hw eq_refl). lia.
Qed.

Lemma writer_is_there_witness :
  (exists mw, writer (bc disconnected_world) = Some mw)
  /\ session (base (bc disconnected_world)) = None
  /\ Sync 9%nat disconnected_world <> Some (disconnected_world, Panics NilDereference).
Proof.
  destruct (writer_is_there_once_connected disconnected_world) as [_ H].
  - apply (scenario_reachable plain_options
             [CallConnect (DialOk true); CallSendRaw [x01; x02] 5; CallDisconnect]).
    vm_compute. reflexivity.
  - destruct H as [Hw Hs]; [vm_compute; lia|].
    split; [exact Hw|]. split; [vm_compute; reflexivity|]. apply Hs.
Defined.

(** ** The counters add up *)

Lemma wrap64_add_l a b : wrap64 (wrap64 a + b) = wrap64 (a + b).
Proof.
  unfold wrap64.
  replace ((a + 2 ^ 63) mod 2 ^ 64 - 2 ^ 63 + b + 2 ^ 63)
    with ((a + 2 ^ 63) mod 2 ^ 64 + b) by lia.
  rewrite Zplus_mod_idemp_l. f_equal. f_equal. lia.
Qed.

Lemma wrap64_add_r a b : wrap64 (a + wrap64 b) = wrap64 (a + b).
Proof. rewrite (Z.add_comm a), wrap64_add_l. f_equal. lia. Qed.

Lemma SendRaw_live s h m dur :
  accepting s -> linked h s ->
  snd (SendRaw m dur s) = Returns None
  /\ stats (fst (SendRaw m dur s)) = record_write (len m) dur (stats s)
  /\ accepting (fst (SendRaw m dur s)) /\ linked h (fst (SendRaw m dur s)).
Proof.
  intros (ses & Hs & Htp) [(mw & Hw & Hh) (c & Hl & Hu)]. subst h.
  pose proof (lookup_lt_Some _ _ _ Hl) as Hlt.
  destruct (Writer_Write_up mw m (net s) c Hl Hu)
    as (mw' & c' & E & Hw' & _ & Hu' & _ & _).
  unfold SendRaw. rewrite Hs, Htp, Hw. simpl. rewrite E. simpl.
  unfold accepting, linked. simpl.
  rewrite list_lookup_insert_eq by exact Hlt.
  repeat split; eauto.
Qed.

Lemma wrap64_in_range z : int64 z -> wrap64 z = z.
Proof.
  unfold int64, wrap64. intros H.
  rewrite Z.mod_small by lia. lia.
Qed.

Lemma SendRaw_all_stats ms : forall (s : World) (h : nat) (n b ns msec : Z),
  accepting s -> linked h s ->
  writeCount (stats s) = wrap64 n ->
  totalBytesWritten (stats s) = wrap64 b ->
  totalWriteTimeNs (stats s) = wrap64 ns ->
  totalWriteTimeMs (stats s) = wrap64 msec ->
  writeCount (stats (SendRaw_all ms s)) = wrap64 (n + Z.of_nat (length ms))
  /\ totalBytesWritten (stats (SendRaw_all ms s)) =
       wrap64 (b + len (concat (map fst ms)))
  /\ totalWriteTimeNs (stats (SendRaw_all ms s)) =
       wrap64 (ns + foldr Z.add 0 (map snd ms))
  /\ totalWriteTimeMs (stats (SendRaw_all ms s)) =
       wrap64 (msec + foldr Z.add 0 (map (fun p => Z.quot (snd p) 1000000) ms)).
Proof.
  induction ms as [|[m dur] ms IH]; intros s h n b ns msec Ha Hl Hn Hb Hns Hms.
  - simpl. rewrite !Z.add_0_r. auto.
  - destruct (SendRaw_live s h m dur Ha Hl) as (_ & Hst & Ha' & Hl').
    cbn [SendRaw_all].
    destruct (IH (fst (SendRaw m dur s)) h (n + 1) (b + len m) (ns + dur)
                (msec + Z.quot dur 1000000) Ha' Hl')
      as (H1 & H2 & H3 & H4).
    + rewrite Hst. simpl. rewrite Hn. unfold add64. apply wrap64_add_l.
    + rewrite Hst. simpl. rewrite Hb. unfold add64.
      rewrite wrap64_add_l. apply wrap64_add_r.
    + rewrite Hst. simpl. rewrite Hns. unfold add64. apply wrap64_add_l.
    + rewrite Hst. simpl. rewrite Hms. unfold add64. apply wrap64_add_l.
    + rewrite H1, H2, H3, H4. cbn [map concat foldr length fst snd].
      rewrite len_app, Nat2Z.inj_succ. repeat split; f_equal; lia.
Qed.

(** X18: the counters add up.  After any run of [SendRaw] calls on a live
    connection, each counter is its old value plus the total over the
    calls, wrapped to 64 bits: the number of calls, the bytes of all the
    messages, the nanoseconds of all the durations, and, for the
    millisecond counter, the whole milliseconds of each duration (so writes
    shorter than a millisecond add nothing to it). *)
Theorem metrics_add_up :
  forall (s : World) (h : nat) (ms : list (list byte * Z)),
    accepting s -> linked h s ->
    int64 (writeCount (stats s)) ->
    int64 (totalBytesWritten (stats s)) ->
    int64 (totalWriteTimeNs (stats s)) ->
    int64 (totalWriteTimeMs (stats s)) ->
    writeCount (stats (SendRaw_all ms s)) =
      wrap64 (writeCount (stats s) + Z.of_nat (length ms))
    /\ totalBytesWritten (stats (SendRaw_all ms s)) =
      wrap64 (totalBytesWritten (stats s) + len (concat (map fst ms)))
    /\ totalWriteTimeNs (stats (SendRaw_all ms s)) =
      wrap64 (totalWriteTimeNs (stats s) + foldr Z.add 0 (map snd ms))
    /\ totalWriteTimeMs (stats (SendRaw_all ms s)) =
      wrap64 (totalWriteTimeMs (stats s)
              + foldr Z.add 0 (map (fun p => Z.quot (snd p) 1000000) ms)).
Proof.
  intros s h ms Ha Hl Hn Hb Hns Hms.
  apply (SendRaw_all_stats ms s h); try assumption;
    symmetry; apply wrap64_in_range; assumption.
Qed.

Lemma metrics_add_up_witness :
  let s' := SendRaw_all [([x03], 999999); ([], 1500000); ([x04; x05], 2)]
              buffering_world in
  writeCount (stats s') = 4
  /\ totalBytesWritten (stats s') = 5
  /\ totalWriteTimeNs (stats s') = 2500006
  /\ totalWriteTimeMs (stats s') = 1.
Proof.
  cbv zeta.
  destruct (metrics_add_up buffering_world 0%nat
              [([x03], 999999); ([], 1500000); ([x04; x05], 2)])
    as (H1 & H2 & H3 & H4).
  - eexists. split; vm_compute; reflexivity.
  - split; eexists; split; vm_compute; reflexivity.
  - vm_compute. split; [discriminate | reflexivity].
  - vm_compute. split; [discriminate | reflexivity].
  - vm_compute. split; [discriminate | reflexivity].
  - vm_compute. split; [discriminate | reflexivity].
  - rewrite H1, H2, H3, H4. vm_compute. repeat split.
Defined.

(** ** Stop, once more *)

(** X19: in every reachable world a [Stop] that is waiting on [bc.done]
    holds [bc.mutex], and so does a [Stop] anywhere between its [Lock] and
    its deferred [Unlock]; while it waits no [Sync], direct or scheduled,
    can take the mutex. *)
Theorem Stop_holds_the_mutex_while_waiting :
  forall (s : World) (t : nat) (p : stop_pc),
    reachable s ->
    threads s !! t = Some (InStop p) -> p <> StopLock ->
    mutex (bc s) = Some t
    /\ forall t', Sync t' s = None.
Proof.
  intros s t p Hr Ht Hp.
  assert (mutex (bc s) = Some t) as Hm.
  { apply (holder_of_mutex s t (InStop p) Hr Ht). destruct p; [contradiction | reflexivity ..]. }
  split; [exact Hm|].
  intros t'. unfold Sync. simpl. unfold mutex_Lock. rewrite Hm. reflexivity.
Qed.

Lemma Stop_holds_the_mutex_witness :
  let s := of_scenario (scenario plain_options stop_during_tick) in
  mutex (bc s) = Some 1%nat /\ Sync 0%nat s = None.
Proof.
  cbv zeta.
  destruct (Stop_holds_the_mutex_while_waiting
              (of_scenario (scenario plain_options stop_during_tick))
              1%nat StopWaitDone) as [Hm Hs].
  - apply (scenario_reachable plain_options stop_during_tick).
    vm_compute. reflexivity.
  - vm_compute. reflexivity.
  - discriminate.
  - split; [exact Hm | apply Hs].
Defined.

(** X20: with at most one flush loop ever started, [Stop] is final: in
    every reachable world in which a [Stop] has returned, that loop has
    exited, no goroutine is inside [flushLoop], and no step of the world is
    a flush by a flush loop. *)
Theorem single_loop_Stop_is_final :
  forall (s : World),
    reachable s -> (loops_started s <= 1)%nat -> stop_returned s ->
    (forall t p, threads s !! t <> Some (InFlushLoop p))
    /\ (forall l, ~ loop_flush l s).
Proof.
  intros s Hr Hn Hret.
  pose proof (Stop_returned_single_loop_exited s Hr Hn Hret) as Hno.
  split; [exact Hno|].
  intros l (t & _ & Ht). exact (Hno t _ Ht).
Qed.

Lemma single_loop_Stop_witness :
  let s := of_scenario (scenario plain_options clean_stop) in
  threads s = [FlushLoopExited; StopReturned]
  /\ ~ loop_flush (Run 0%nat) s.
Proof.
  cbv zeta. split; [vm_compute; reflexivity|].
  apply (single_loop_Stop_is_final
           (of_scenario (scenario plain_options clean_stop))).
  - apply (scenario_reachable plain_options clean_stop). vm_compute. reflexivity.
  - vm_compute. lia.
  - exists 1%nat. vm_compute. reflexivity.
Defined.

(** X21: the shutdown sequence delivers.  With the flush loop idle, the
    mutex free, both channels open and a live connection, a [Stop] that
    runs to its end followed by one [Sync] leaves the connection with what
    it had received plus everything that was buffered, and the buffer
    empty. *)
Theorem Stop_then_Sync_drains_the_buffer :
  forall (s : World) (t h : nat),
    crashed s = None ->
    mutex (bc s) = None -> stop (bc s) = Open -> done (bc s) = Open ->
    threads s !! t = Some (InFlushLoop LoopSelect) ->
    linked h s ->
    exists s1 s2,
      exec [GoStop; Run (length (threads s)); Run (length (threads s));
            Run (length (threads s)); Select t CaseStop; Run t;
            Run (length (threads s)); Run (length (threads s))] s = Some s1
      /\ threads s1 !! length (threads s) = Some StopReturned
      /\ Sync (length (threads s)) s1 = Some (s2, Returns None)
      /\ received h s2 = received h s ++ buffered s
      /\ buffered s2 = [].
Proof.
  intros s t h Hc Hm Hs Hd Ht Hl.
  destruct (Stop_runs_clean s t Hc Hm Hs Hd Ht)
    as (s1 & E1 & Hret & _ & Hm1 & _ & Hw1 & Hn1 & _).
  assert (linked h s1) as Hl1.
  { destruct Hl as [Hw Hn]. split; [rewrite Hw1 | rewrite Hn1]; assumption. }
  destruct (Sync_live s1 (length (threads s)) h Hl1 Hm1)
    as (s2 & E2 & Hr & Hb & _).
  exists s1, s2. split; [exact E1|]. split; [exact Hret|].
  split; [exact E2|]. split; [|exact Hb].
  rewrite Hr. unfold received, buffered. rewrite Hw1, Hn1. reflexivity.
Qed.

Lemma Stop_then_Sync_witness :
  exists s1 s2,
    exec [GoStop; Run 1%nat; Run 1%nat; Run 1%nat; Select 0%nat CaseStop;
          Run 0%nat; Run 1%nat; Run 1%nat] buffering_world = Some s1
    /\ Sync 1%nat s1 = Some (s2, Returns None)
    /\ received 0%nat s2 = [x01; x02]
    /\ buffered s2 = [].
Proof.
  destruct (Stop_then_Sync_drains_the_buffer buffering_world 0%nat 0%nat)
    as (s1 & s2 & E1 & _ & E2 & Hr & Hb); try (vm_compute; reflexivity).
  - split; eexists; split; vm_compute; reflexivity.
  - exists s1, s2. split; [exact E1|]. split; [exact E2|].
    split; [|exact Hb]. rewrite Hr. vm_compute. reflexivity.
Defined.

(** ** A write that cannot be taken *)

(** X22: when the message does not fit in the free space of the buffer and
    the connection is dead, [SendRaw] returns the write error and the
    message is dropped: the buffer and the connections are as before.  The
    call is still counted, with zero bytes. *)
Theorem SendRaw_overflow_on_dead_connection :
  forall (s : World) (mw : Writer) (c : Conn) (m : list byte) (dur : Z),
    accepting s ->
    writer (bc s) = Some mw ->
    net s !! w mw = Some c -> up c = false ->
    avail mw < len m ->
    exists s',
      SendRaw m dur s = (s', Returns (Some WriteFailure))
      /\ buffered s' = buffered s
      /\ net s' = net s
      /\ stats s' = record_write 0 dur (stats s).
Proof.
  intros s mw c m dur (ses & Hs & Htp) Hw Hl Hu Hov.
  assert (Writer_Write mw m (net s) = (mw, net s, (0, Some WriteFailure))) as E.
  { unfold Writer_Write.
    destruct (Z.ltb_spec (avail mw) (len m)) as [_ | H]; [|lia].
    destruct (buf mw) as [|x b] eqn:Hb.
    - unfold Writer_flush. rewrite Hb.
      assert (cap mw < len m) as Hcap
        by (unfold avail in Hov; rewrite Hb in Hov; unfold len in Hov at 1;
            simpl in Hov; lia).
      destruct (Z.ltb_spec (cap mw) (len m)) as [_ | H]; [|lia].
      unfold net_Write. rewrite Hl. unfold Conn_Write. rewrite Hu.
      rewrite (list_insert_id _ _ _ Hl). reflexivity.
    - rewrite (Writer_flush_down mw (net s) c Hl Hu) by congruence.
      reflexivity. }
  unfold SendRaw. rewrite Hs, Htp, Hw. simpl. rewrite E.
  eexists. split; [reflexivity|].
  unfold buffered. simpl. rewrite Hw. repeat split.
Qed.

Lemma SendRaw_overflow_witness :
  let s := of_scenario (scenario tiny_options
             [CallConnect (DialOk true); CallSendRaw [x01; x02] 5;
              NetDown 0%nat]) in
  exists s',
    SendRaw (replicate 17 x03) 9 s = (s', Returns (Some WriteFailure))
    /\ buffered s' = [x01; x02]
    /\ writeCount (stats s') = 2
    /\ totalBytesWritten (stats s') = 2.
Proof.
  cbv zeta.
  destruct (SendRaw_overflow_on_dead_connection
              (of_scenario (scenario tiny_options
                 [CallConnect (DialOk true); CallSendRaw [x01; x02] 5;
                  NetDown 0%nat]))
              (mkWriter 0 18 [x01; x02]) (mkConn false [] [])
              (replicate 17 x03) 9)
    as (s' & E & Hb & _ & Hst); try (vm_compute; reflexivity).
  - eexists. split; vm_compute; reflexivity.
  - exists s'. split; [exact E|]. split; [rewrite Hb; vm_compute; reflexivity|].
    rewrite Hst. vm_compute. split; reflexivity.
Defined.
